(** * The role tag blacklist tidy operation of the AWS auth backend

    A shallow embedding of
    [builtin/credential/aws/path_tidy_roletag_blacklist.go] and the
    properties of [tidyBlacklistRoleTag]: the single-flight guard, the
    sequential fail-fast loop over the listed tags, the expiration test and
    the keys the loop fetches and deletes.

    The function talks to three collaborators that live outside the file:
    the [logical.Storage] interface, the JSON decoder of a storage entry and
    the wall clock.  The storage is a type class, the decoder and the clock
    are section variables, and an in-memory storage with fault injection
    gives concrete instances to run the code on.  The path of the file and
    its update callback, which calls the function with the [safety_buffer]
    of the request, come after the function. *)

From Stdlib Require Import ZArith Lia List.
From Stdlib.Strings Require Import Byte.
From stdpp Require Import base option gmap strings list fin_maps.

Local Open Scope Z_scope.

(** ** Data model *)

(** Go's [error] values the function can return.  The first five are the
    errors the function builds itself; the Go text of each is given.
    [ErrOther] stands for an error value made by a collaborator. *)
Inductive error : Type :=
| ErrAlreadyRunning
    (* fmt.Errorf("roletag blacklist tidy operation already running") *)
| ErrFetch (tag : string) (err : error)
    (* errwrap.Wrapf(fmt.Sprintf("error fetching tag %q: {{err}}", tag), err) *)
| ErrNilEntry (tag : string)
    (* fmt.Errorf("tag entry for tag %q is nil", tag) *)
| ErrEmptyEntry (tag : string)
    (* fmt.Errorf("found entry for tag %q but actual tag is empty", tag) *)
| ErrDelete (tag : string) (err : error)
    (* errwrap.Wrapf(fmt.Sprintf("error deleting tag %q from storage: {{err}}", tag), err) *)
| ErrOther (msg : string).

(** [logical.StorageEntry]: the key and the payload of a stored record.  A
    nil and an empty [Value] both have length zero and are both the empty
    list here. *)
Record StorageEntry : Type := mkStorageEntry {
  Key : string;
  Value : list byte;
}.

(** Modelled from the spec: the struct [roleTagBlacklistEntry] is declared in
    another file of the package; the sweep reads its [ExpirationTime] only
    ("expirationTime: absolute timestamp", the other fields are opaque to
    the sweep). *)
Record roleTagBlacklistEntry : Type := mkRoleTagBlacklistEntry {
  ExpirationTime : Z;
}.

(** *** Time

    [time.Time] is an instant and [time.Duration] a signed 64-bit count of
    nanoseconds.  Instants are integers (nanoseconds on an unbounded time
    line), so [Add] and [After] are those of the [time] package away from
    the ends of its range. *)
Definition Time : Type := Z.
Definition Duration : Type := Z.

Definition Add (t : Time) (d : Duration) : Time := t + d.
Definition After (t u : Time) : bool := u <? t.

(** Two's complement wrap-around of a 64-bit signed integer. *)
Definition int64 (z : Z) : Z := (z + 2 ^ 63) mod 2 ^ 64 - 2 ^ 63.

Definition Second : Duration := 1000000000.

(** [time.Duration(safety_buffer) * time.Second]: a product of two int64
    values, which wraps. *)
Definition bufferDuration (safety_buffer : Z) : Duration :=
  int64 (int64 safety_buffer * Second).

(** The default of the [safety_buffer] field of the path: 72 hours. *)
Definition default_safety_buffer : Z := 259200.

(** *** Storage

    The four operations of the [logical.Storage] interface.  Each takes the
    store and gives the store back with its answer; [inl] and [Some] carry
    the Go [error]. *)
Class Storage (S : Type) : Type := {
  List : S -> string -> S * (error + list string);
  Get : S -> string -> S * (error + option StorageEntry);
  Put : S -> StorageEntry -> S * option error;
  Delete : S -> string -> S * option error;
}.

Inductive StorageOp : Type :=
| OpList (prefix : string)
| OpGet (key : string)
| OpPut (key : string)
| OpDelete (key : string).

(** What an invocation does that others can observe, in order: the guard
    being taken and released, and the calls made on the storage. *)
Inductive Event : Type :=
| EvAcquire
| EvRelease
| EvCall (op : StorageOp).

Definition is_call (e : Event) : bool :=
  match e with EvCall _ => true | _ => false end.

Definition is_delete (e : Event) : bool :=
  match e with EvCall (OpDelete _) => true | _ => false end.

Definition is_get (e : Event) : bool :=
  match e with EvCall (OpGet _) => true | _ => false end.

Definition is_put (e : Event) : bool :=
  match e with EvCall (OpPut _) => true | _ => false end.

Definition is_release (e : Event) : bool :=
  match e with EvRelease => true | _ => false end.

(** The calls the function makes: listing, fetch and delete. *)
Definition is_sweep_call (e : Event) : bool :=
  match e with
  | EvCall (OpList _) | EvCall (OpGet _) | EvCall (OpDelete _) => true
  | _ => false
  end.

Definition calls (evs : list Event) : list Event := List.filter is_call evs.
Definition deletes (evs : list Event) : list Event := List.filter is_delete evs.
Definition gets (evs : list Event) : list Event := List.filter is_get evs.
Definition puts (evs : list Event) : list Event := List.filter is_put evs.
Definition releases (evs : list Event) : list Event := List.filter is_release evs.

(** The state an invocation runs in: the guard word of the backend
    ([b.tidyBlacklistCASGuard], a uint32), the storage [s] and the number of
    readings of the clock taken so far. *)
Record World (S : Type) : Type := mkWorld {
  tidyBlacklistCASGuard : Z;
  storage : S;
  readings : nat;
}.
Arguments mkWorld {S} _ _ _.
Arguments tidyBlacklistCASGuard {S} _.
Arguments storage {S} _.
Arguments readings {S} _.

Definition set_guard {S} (g : Z) (w : World S) : World S :=
  mkWorld g (storage w) (readings w).
Definition set_storage {S} (s : S) (w : World S) : World S :=
  mkWorld (tidyBlacklistCASGuard w) s (readings w).
Definition tick {S} (w : World S) : World S :=
  mkWorld (tidyBlacklistCASGuard w) (storage w) (Datatypes.S (readings w)).

(** ** A monad for the body: state, early return with an error, event log *)

Definition M (S A : Type) : Type := World S -> list Event * World S * (error + A).

Definition ret {S A} (x : A) : M S A := fun w => ([], w, inr x).
Definition fail {S A} (e : error) : M S A := fun w => ([], w, inl e).
Definition bind {S A B} (m : M S A) (f : A -> M S B) : M S B :=
  fun w =>
    match m w with
    | (ev1, w1, inl e) => (ev1, w1, inl e)
    | (ev1, w1, inr x) =>
        match f x w1 with
        | (ev2, w2, r) => (ev1 ++ ev2, w2, r)
        end
    end.

Notation "x <- m ;; k" := (bind m (fun x => k))
  (at level 100, m at next level, right associativity).
Notation "m ;;; k" := (bind m (fun _ => k))
  (at level 100, right associativity).

(** ** The code *)

Section Sweeper.
Context {S : Type} `{Storage S}.

(** [tagEntry.DecodeJSON(&result)] parses the payload of the entry.  The
    decoder is not in this file. *)
Variable decode : list byte -> error + roleTagBlacklistEntry.

(** The wall clock: [clock n] is what the n-th call of [time.Now()]
    returns. *)
Variable clock : nat -> Time.

Definition DecodeJSON (e : StorageEntry) : error + roleTagBlacklistEntry :=
  decode (Value e).

Definition s_List (prefix : string) : M S (list string) :=
  fun w => let '(s', r) := List (storage w) prefix in
           ([EvCall (OpList prefix)], set_storage s' w, r).

Definition s_Get (key : string) : M S (option StorageEntry) :=
  fun w => let '(s', r) := Get (storage w) key in
           ([EvCall (OpGet key)], set_storage s' w, r).

Definition s_Delete (key : string) : M S unit :=
  fun w => let '(s', r) := Delete (storage w) key in
           ([EvCall (OpDelete key)], set_storage s' w,
            match r with Some e => inl e | None => inr tt end).

Definition time_Now : M S Time :=
  fun w => ([], tick w, inr (clock (readings w))).

(** [errwrap.Wrapf] on the error of a call. *)
Definition wrap {A} (f : error -> error) (m : M S A) : M S A :=
  fun w => match m w with
           | (ev, w', inl e) => (ev, w', inl (f e))
           | r => r
           end.

(** The key line 51 fetches and the key line 70 deletes. *)
Definition fetchKey (tag : string) : string := "blacklist/roletag/" +:+ tag.
Definition deleteKey (tag : string) : string := "blacklist/roletag" +:+ tag.

(** The body of the loop, lines 51 to 73. *)
Definition tidyTag (bufferDuration : Duration) (tag : string) : M S unit :=
  tagEntry <- wrap (ErrFetch tag) (s_Get (fetchKey tag)) ;;
  match tagEntry with
  | None => fail (ErrNilEntry tag)
  | Some tagEntry =>
      if (length (Value tagEntry) =? 0)%nat then fail (ErrEmptyEntry tag)
      else
        match DecodeJSON tagEntry with
        | inl err => fail err
        | inr result =>
            now <- time_Now ;;
            if After now (Add (ExpirationTime result) bufferDuration)
            then wrap (ErrDelete tag) (s_Delete (deleteKey tag))
            else ret tt
        end
  end.

(** [for _, tag := range tags { ... }] *)
Fixpoint tidyTags (bufferDuration : Duration) (tags : list string) : M S unit :=
  match tags with
  | [] => ret tt
  | tag :: rest => tidyTag bufferDuration tag ;;; tidyTags bufferDuration rest
  end.

(** Lines 44 to 76: what runs while the guard is held. *)
Definition tidyGuarded (safety_buffer : Z) : M S unit :=
  let bufferDuration := bufferDuration safety_buffer in
  tags <- s_List "blacklist/roletag/" ;;
  tidyTags bufferDuration tags.

(** [tidyBlacklistRoleTag]: the compare-and-swap of the guard from 0 to 1,
    the deferred store of 0 that runs when the function returns, and the
    body.  The result is the Go [error], [None] for nil. *)
Definition tidyBlacklistRoleTag (safety_buffer : Z) (w : World S)
  : list Event * World S * option error :=
  if tidyBlacklistCASGuard w =? 0 then
    match tidyGuarded safety_buffer (set_guard 1 w) with
    | (ev, w', r) =>
        (EvAcquire :: ev ++ [EvRelease], set_guard 0 w',
         match r with inl e => Some e | inr _ => None end)
    end
  else ([], w, Some ErrAlreadyRunning).

End Sweeper.

(** ** An in-memory storage

    Modelled from the spec: the implementations of [logical.Storage] are
    outside this file; this one follows the storage collaborator of the
    spec, "List(prefix) -> ordered sequence of key suffixes, Get(key) ->
    (payload bytes | absent), Delete(key) -> success|error".  [fault] says
    which calls fail and with what error; a failing call leaves the data
    alone. *)

Fixpoint strip_prefix (prefix s : string) : option string :=
  match prefix, s with
  | EmptyString, _ => Some s
  | String c p, String d s' =>
      if Ascii.eqb c d then strip_prefix p s' else None
  | String _ _, EmptyString => None
  end.

Record Inmem : Type := mkInmem {
  data : gmap string (list byte);
  fault : StorageOp -> option error;
}.

Definition inmem_keys (prefix : string) (m : gmap string (list byte)) : list string :=
  omap (fun kv : string * list byte => strip_prefix prefix (fst kv)) (map_to_list m).

#[global] Instance Inmem_Storage : Storage Inmem := {
  List s prefix :=
    (s, match fault s (OpList prefix) with
        | Some e => inl e
        | None => inr (inmem_keys prefix (data s))
        end);
  Get s key :=
    (s, match fault s (OpGet key) with
        | Some e => inl e
        | None => inr (mkStorageEntry key <$> data s !! key)
        end);
  Put s e :=
    match fault s (OpPut (Key e)) with
    | Some err => (s, Some err)
    | None => (mkInmem (<[Key e := Value e]> (data s)) (fault s), None)
    end;
  Delete s key :=
    match fault s (OpDelete key) with
    | Some err => (s, Some err)
    | None => (mkInmem (delete key (data s)) (fault s), None)
    end;
}.

Definition no_fault : StorageOp -> option error := fun _ => None.

#[global] Instance StorageOp_eq_dec : EqDecision StorageOp.
Proof. solve_decision. Defined.

(** The one call [op] fails with [err]. *)
Definition fault_on (op : StorageOp) (err : error) : StorageOp -> option error :=
  fun o => if decide (o = op) then Some err else None.

(** A decoder and two clocks to run the code with.  The payload this decoder
    reads is the expiration time in decimal digits; any other byte is a
    decode error. *)
Definition digit (b : byte) : option Z :=
  let n := Z.of_N (Byte.to_N b) in
  if (48 <=? n) && (n <=? 57) then Some (n - 48) else None.

Fixpoint decimal (acc : Z) (bs : list byte) : option Z :=
  match bs with
  | [] => Some acc
  | b :: rest =>
      match digit b with
      | Some d => decimal (10 * acc + d) rest
      | None => None
      end
  end.

Definition decodeDecimal (payload : list byte) : error + roleTagBlacklistEntry :=
  match decimal 0 payload with
  | Some t => inr (mkRoleTagBlacklistEntry t)
  | None => inl (ErrOther "invalid character in payload")
  end.

Definition payload (s : string) : list byte := String.list_byte_of_string s.

Definition frozenClock (t : Time) : nat -> Time := fun _ => t.

Definition idle (s : Inmem) : World Inmem := mkWorld 0 s 0.

(** Storages to run the code on.  Payloads are expiration times for
    [decodeDecimal]. *)
Definition inmem_of (entries : list (string * string)) : Inmem :=
  mkInmem
    (list_to_map (List.map (fun kv : string * string => (fst kv, payload (snd kv))) entries))
    no_fault.

(** No entry at all. *)
Definition store_empty : Inmem := inmem_of [].

(** One entry, tag a, expiring at 100. *)
Definition store_one : Inmem := inmem_of [("blacklist/roletag/a", "100")].

(** Tag a expiring at 100, tag b with an empty payload, and a record
    outside the namespace. *)
Definition store_abort : Inmem :=
  inmem_of [("blacklist/roletag/a", "100"); ("blacklist/roletag/b", "");
            ("blacklist/roletaga", "7")].

(** One entry whose payload does not decode, under the given tag. *)
Definition store_garbled (tag : string) : Inmem :=
  inmem_of [("blacklist/roletag/" +:+ tag, "x")].

(** Tag o expiring at 2000 and tag /o expiring at 100. *)
Definition store_slash : Inmem :=
  inmem_of [("blacklist/roletag/o", "2000"); ("blacklist/roletag//o", "100")].

(** The empty tag expiring at 2000 and tag / expiring at 100. *)
Definition store_slash_empty : Inmem :=
  inmem_of [("blacklist/roletag/", "2000"); ("blacklist/roletag//", "100")].

(** One entry, tag a, expiring at instant 0. *)
Definition store_epoch : Inmem := inmem_of [("blacklist/roletag/a", "0")].

(** One entry, tag a, expiring at 3 seconds. *)
Definition store_later : Inmem := inmem_of [("blacklist/roletag/a", "3000000000")].


(** The three parts of a run: what it did, the state it left, what it
    returned. *)
Definition log {A B} (x : list Event * A * B) : list Event := fst (fst x).
Definition final {A B} (x : list Event * A * B) : A := snd (fst x).
Definition outcome {A B} (x : list Event * A * B) : B := snd x.

(** A computation that logs nothing but listings, fetches and deletes, and
    never touches the guard. *)
Definition quiet {S A} (m : M S A) : Prop :=
  forall w, Forall (fun e => is_sweep_call e = true) (log (m w))
            /\ tidyBlacklistCASGuard (final (m w)) = tidyBlacklistCASGuard w.

(** A computation on the in-memory storage that leaves the value of every
    key alone, except the keys it logs a delete for. *)
Definition framed {A} (m : M Inmem A) : Prop :=
  forall (w : World Inmem) (key : string),
    ~ In (EvCall (OpDelete key)) (log (m w)) ->
    data (storage (final (m w))) !! key = data (storage w) !! key.

(** ** The path and its update callback *)

(** [logical.Operation]: the operations a path can have a callback for. *)
Inductive Operation : Type :=
| CreateOperation | ReadOperation | UpdateOperation | DeleteOperation | ListOperation.

(** [framework.FieldSchema] of a field of type [TypeDurationSecond]: a
    number of seconds, with its default. *)
Record FieldSchema : Type := mkFieldSchema {
  Default : Z;
}.

(** [framework.Path], lines 14 to 33: the pattern, the fields and the
    operations that have a callback. *)
Record Path : Type := mkPath {
  Pattern : string;
  Fields : list (string * FieldSchema);
  Callbacks : list Operation;
}.

Definition pathTidyRoletagBlacklist : Path :=
  {| Pattern := "tidy/roletag-blacklist$";
     Fields := [("safety_buffer", mkFieldSchema default_safety_buffer)];
     Callbacks := [UpdateOperation] |}.

(** Modelled from the spec: [framework.FieldData] and its [Get] are outside
    this file; the buffer is "caller-supplied" and "defaults to a
    conservative long buffer ... when unspecified".  [Raw] holds the fields
    the request gives, in seconds; a field the request does not give has the
    default of its schema. *)
Record FieldData : Type := mkFieldData {
  Raw : gmap string Z;
  Schema : list (string * FieldSchema);
}.

Fixpoint schema_default (schema : list (string * FieldSchema)) (field : string) : Z :=
  match schema with
  | [] => 0
  | (name, fs) :: rest =>
      if String.eqb name field then Default fs else schema_default rest field
  end.

Definition FieldData_Get (d : FieldData) (field : string) : Z :=
  match Raw d !! field with
  | Some v => v
  | None => schema_default (Schema d) field
  end.

(** The data of a request on the path. *)
Definition request_data (raw : gmap string Z) : FieldData :=
  mkFieldData raw (Fields pathTidyRoletagBlacklist).

(** [pathTidyRoletagBlacklistUpdate], lines 80 to 82: a nil response and
    the error of [tidyBlacklistRoleTag] run on the storage of the request
    with the [safety_buffer] of the data.  The response is [None] for nil. *)
Definition pathTidyRoletagBlacklistUpdate {S} `{Storage S}
    (decode : list byte -> error + roleTagBlacklistEntry) (clock : nat -> Time)
    (d : FieldData) (w : World S)
  : list Event * World S * (option unit * option error) :=
  match tidyBlacklistRoleTag decode clock (FieldData_Get d "safety_buffer") w with
  | (ev, w', err) => (ev, w', (None, err))
  end.

(** ** Vocabulary for the statements *)

(** The fetch and the delete the loop makes for a tag. *)
Definition ev_get (tag : string) : Event := EvCall (OpGet (fetchKey tag)).
Definition ev_delete (tag : string) : Event := EvCall (OpDelete (deleteKey tag)).

Definition is_list (e : Event) : bool :=
  match e with EvCall (OpList _) => true | _ => false end.
Definition lists (evs : list Event) : list Event := List.filter is_list evs.

(** The rest of a run that holds the guard and has [post] left to process
    in the world [w3], after the events [evs] since the listing: the loop
    over [post], the release, and the error of the loop as the result. *)
Definition resume {S} `{Storage S}
    (decode : list byte -> error + roleTagBlacklistEntry) (clock : nat -> Time)
    (B : Duration) (post : list string) (evs : list Event) (w3 : World S)
  : list Event * World S * option error :=
  match tidyTags decode clock B post w3 with
  | (evp, wp, r) =>
      (EvAcquire :: EvCall (OpList "blacklist/roletag/") :: evs ++ evp ++ [EvRelease],
       set_guard 0 wp,
       match r with inl e => Some e | inr _ => None end)
  end.

(** A tag that begins with the path separator. *)
Definition slash_tag (tag : string) : bool :=
  match strip_prefix "/" tag with
  | Some _ => true
  | None => false
  end.

(** The events of the iteration on a well-formed entry: the fetch, and the
    delete when the entry is due. *)
Definition iteration (due : string -> bool) (tag : string) : list Event :=
  if due tag then [ev_get tag; ev_delete tag] else [ev_get tag].

(** The entry of [tag] in the map [m] is there, is not empty, decodes, and
    the clock is on the side of its threshold that [due] says, at every
    reading. *)
Definition well_formed_at (decode : list byte -> error + roleTagBlacklistEntry)
    (clock : nat -> Time) (B : Duration) (due : string -> bool)
    (m : gmap string (list byte)) (tag : string) : Prop :=
  exists (v : list byte) (entry : roleTagBlacklistEntry),
    m !! fetchKey tag = Some v
    /\ v <> []
    /\ decode v = inr entry
    /\ forall n, (ExpirationTime entry + B <? clock n) = due tag.

(** A computation on the in-memory storage under which every key keeps its
    value or loses it to a delete of the log, and which leaves the faults as
    they are. *)
Definition shrinking {A} (m : M Inmem A) : Prop :=
  forall (w : World Inmem),
    fault (storage (final (m w))) = fault (storage w)
    /\ forall key : string,
        data (storage (final (m w))) !! key = data (storage w) !! key
        \/ (data (storage (final (m w))) !! key = None
            /\ In (EvCall (OpDelete key)) (log (m w))).

(** Tag a expiring at 3 seconds, and a record outside the namespace. *)
Definition store_grace : Inmem :=
  inmem_of [("blacklist/roletag/a", "3000000000"); ("blacklist/roletaga", "7")].

(** Tag o expiring at 1000 and tag /o expiring at 100. *)
Definition store_boundary : Inmem :=
  inmem_of [("blacklist/roletag/o", "1000"); ("blacklist/roletag//o", "100")].

(** An error of the storage, for the runs below. *)
Definition io_error : error := ErrOther "storage unavailable".

(** Storages where one call fails. *)
Definition store_list_fails : Inmem :=
  mkInmem (data store_one) (fault_on (OpList "blacklist/roletag/") io_error).
Definition store_get_fails : Inmem :=
  mkInmem (data store_abort) (fault_on (OpGet "blacklist/roletag/b") io_error).
Definition store_delete_fails : Inmem :=
  mkInmem (data store_one) (fault_on (OpDelete "blacklist/roletaga") io_error).

(** An instant, and a storage with the entry A that expired ten days before
    it and the entry B that expired one hour before it. *)
Definition example_instant : Time := 1000000000000000.
Definition due_A (tag : string) : bool := String.eqb tag "A".
Definition store_example : Inmem :=
  inmem_of [("blacklist/roletag/A", "136000000000000");
            ("blacklist/roletag/B", "996400000000000")].

(** ** Lemmas on the monad and on the loop *)

Section SweeperFacts.
Context {S : Type} `{Storage S}.
Variable decode : list byte -> error + roleTagBlacklistEntry.
Variable clock : nat -> Time.


Lemma bind_ok {A B} (m : M S A) (f : A -> M S B) w ev1 w1 x :
  m w = (ev1, w1, inr x) ->
  bind m f w = (ev1 ++ log (f x w1), final (f x w1), outcome (f x w1)).
Proof.
  intros Hm. unfold bind. rewrite Hm.
  destruct (f x w1) as [[ev2 w2] r]. reflexivity.
Qed.

Lemma bind_err {A B} (m : M S A) (f : A -> M S B) w ev1 w1 e :
  m w = (ev1, w1, inl e) -> bind m f w = (ev1, w1, inl e).
Proof. intros Hm. unfold bind. now rewrite Hm. Qed.

Lemma quiet_ret {A} (x : A) : quiet (@ret S A x).
Proof. intros w. split; [constructor | reflexivity]. Qed.

Lemma quiet_fail {A} (e : error) : quiet (@fail S A e).
Proof. intros w. split; [constructor | reflexivity]. Qed.

Lemma quiet_bind {A B} (m : M S A) (f : A -> M S B) :
  quiet m -> (forall x, quiet (f x)) -> quiet (bind m f).
Proof.
  intros Hm Hf w. specialize (Hm w). unfold bind.
  destruct (m w) as [[ev1 w1] [e | x]]; [exact Hm |].
  specialize (Hf x w1). destruct (f x w1) as [[ev2 w2] r].
  cbn in *. destruct Hm as [Hm1 Hm2], Hf as [Hf1 Hf2]. split.
  - apply Forall_app; split; assumption.
  - congruence.
Qed.

Lemma quiet_wrap {A} g (m : M S A) : quiet m -> quiet (wrap g m).
Proof.
  intros Hm w. specialize (Hm w). unfold wrap.
  destruct (m w) as [[ev w1] [e | x]]; exact Hm.
Qed.

Lemma quiet_List prefix : quiet (s_List prefix).
Proof.
  intros w. unfold s_List. destruct (List (storage w) prefix) as [s' r].
  split; [repeat constructor | reflexivity].
Qed.

Lemma quiet_Get key : quiet (s_Get key).
Proof.
  intros w. unfold s_Get. destruct (Get (storage w) key) as [s' r].
  split; [repeat constructor | reflexivity].
Qed.

Lemma quiet_Delete key : quiet (s_Delete key).
Proof.
  intros w. unfold s_Delete. destruct (Delete (storage w) key) as [s' r].
  split; [repeat constructor | reflexivity].
Qed.

Lemma quiet_Now : quiet (time_Now clock : M S Time).
Proof. intros w. split; [constructor | reflexivity]. Qed.

Lemma quiet_tidyTag B tag : quiet (tidyTag decode clock B tag).
Proof.
  unfold tidyTag.
  apply quiet_bind; [apply quiet_wrap, quiet_Get |].
  intros [e |]; [| apply quiet_fail].
  destruct (length (Value e) =? 0)%nat; [apply quiet_fail |].
  destruct (DecodeJSON decode e) as [err | entry]; [apply quiet_fail |].
  apply quiet_bind; [apply quiet_Now |].
  intros now. destruct (After now _).
  - apply quiet_wrap, quiet_Delete.
  - apply quiet_ret.
Qed.

Lemma quiet_tidyTags B tags : quiet (tidyTags decode clock B tags).
Proof.
  induction tags as [| tag rest IH]; cbn.
  - apply quiet_ret.
  - apply quiet_bind; [apply quiet_tidyTag | intros _; exact IH].
Qed.

Lemma quiet_tidyGuarded sb : quiet (tidyGuarded decode clock sb).
Proof.
  unfold tidyGuarded.
  apply quiet_bind; [apply quiet_List | intros tags; apply quiet_tidyTags].
Qed.

Lemma calls_only_no_release evs :
  Forall (fun e => is_sweep_call e = true) evs -> releases evs = [].
Proof.
  induction 1 as [| e evs He _ IH]; [reflexivity |].
  unfold releases in *. cbn. destruct e; try discriminate. exact IH.
Qed.

Lemma calls_only_no_put evs :
  Forall (fun e => is_sweep_call e = true) evs -> puts evs = [].
Proof.
  induction 1 as [| e evs He _ IH]; [reflexivity |].
  unfold puts in *. cbn. destruct e as [| | []]; try discriminate; exact IH.
Qed.

(** The function never calls [Put]: the one call that changes the storage
    is [Delete]. *)
Lemma tidyBlacklistRoleTag_never_puts (safety_buffer : Z) (w : World S) :
  puts (log (tidyBlacklistRoleTag decode clock safety_buffer w)) = [].
Proof.
  unfold tidyBlacklistRoleTag.
  destruct (tidyBlacklistCASGuard w =? 0); [| reflexivity].
  pose proof (quiet_tidyGuarded safety_buffer (set_guard 1 w)) as [Hq _].
  destruct (tidyGuarded decode clock safety_buffer (set_guard 1 w)) as [[ev w'] r].
  cbn [log fst] in *. unfold puts. cbn.
  rewrite List.filter_app. fold (puts ev). rewrite (calls_only_no_put _ Hq).
  reflexivity.
Qed.

(** The loop over a listing that is split in two is the loop over the
    first part followed by the loop over the second. *)
Lemma tidyTags_app B pre post w :
  tidyTags decode clock B (pre ++ post) w = bind (tidyTags decode clock B pre) (fun _ => tidyTags decode clock B post) w.
Proof.
  revert w. induction pre as [| tag pre IH]; intros w.
  - cbn. unfold bind, ret. destruct (tidyTags decode clock B post w) as [[ev w'] r]. reflexivity.
  - cbn. unfold bind.
    destruct (tidyTag decode clock B tag w) as [[ev1 w1] [e | []]]; [reflexivity |].
    rewrite IH. unfold bind.
    destruct (tidyTags decode clock B pre w1) as [[ev2 w2] [e | []]]; [reflexivity |].
    destruct (tidyTags decode clock B post w2) as [[ev3 w3] r].
    now rewrite app_assoc.
Qed.

(** What the loop body does on an entry that is fetched, is not empty and
    decodes: one reading of the clock, then the delete or nothing. *)
Lemma tidyTag_decoded B tag w s' e entry :
  Get (storage w) (fetchKey tag) = (s', inr (Some e)) ->
  Value e <> [] ->
  decode (Value e) = inr entry ->
  tidyTag decode clock B tag w =
    if After (clock (readings w)) (Add (ExpirationTime entry) B)
    then
      (EvCall (OpGet (fetchKey tag))
         :: log (wrap (ErrDelete tag) (s_Delete (deleteKey tag)) (tick (set_storage s' w))),
       final (wrap (ErrDelete tag) (s_Delete (deleteKey tag)) (tick (set_storage s' w))),
       outcome (wrap (ErrDelete tag) (s_Delete (deleteKey tag)) (tick (set_storage s' w))))
    else ([EvCall (OpGet (fetchKey tag))], tick (set_storage s' w), inr tt).
Proof.
  intros HGet Hne Hdec. unfold tidyTag, bind, wrap at 1, s_Get.
  rewrite HGet. cbn.
  destruct (Value e) as [| b bs] eqn:HV; [congruence |]. cbn.
  unfold DecodeJSON. rewrite HV, Hdec. cbn.
  destruct (After _ _); [| reflexivity].
  destruct (wrap _ _ _) as [[ev w'] r]. reflexivity.
Qed.

Lemma log_wrap_Delete g key w :
  log (wrap g (s_Delete key) w) = [EvCall (OpDelete key)].
Proof.
  unfold wrap, s_Delete. destruct (Delete (storage w) key) as [s' [err |]]; reflexivity.
Qed.

(** What the loop body does on an entry whose payload is empty. *)
Lemma tidyTag_empty B tag w s' e :
  Get (storage w) (fetchKey tag) = (s', inr (Some e)) ->
  Value e = [] ->
  tidyTag decode clock B tag w =
    ([EvCall (OpGet (fetchKey tag))], set_storage s' w, inl (ErrEmptyEntry tag)).
Proof.
  intros HGet HV. unfold tidyTag, bind, wrap, s_Get.
  rewrite HGet. cbn. rewrite HV. reflexivity.
Qed.

(** What the loop body does on an entry whose payload does not decode: the
    error of the decoder is returned as it is. *)
Lemma tidyTag_undecodable B tag w s' e err :
  Get (storage w) (fetchKey tag) = (s', inr (Some e)) ->
  Value e <> [] ->
  decode (Value e) = inl err ->
  tidyTag decode clock B tag w =
    ([EvCall (OpGet (fetchKey tag))], set_storage s' w, inl err).
Proof.
  intros HGet Hne Hdec. unfold tidyTag, bind, wrap, s_Get.
  rewrite HGet. cbn.
  destruct (Value e) as [| b bs] eqn:HV; [congruence |]. cbn.
  unfold DecodeJSON. rewrite HV, Hdec. reflexivity.
Qed.

(** ** The guard *)

(** C4.  An invocation that takes the guard (it finds the guard word at 0)
    gives it back whatever happens in between: when the call returns the
    guard word is 0 again; the store that releases it is logged exactly
    once, as the last event of the call, after an acquisition logged as the
    first; and an invocation started in the state the call left takes the
    guard in its turn. *)
Theorem guard_released_exactly_once (safety_buffer : Z) (w : World S) :
  tidyBlacklistCASGuard w = 0 ->
  let run := tidyBlacklistRoleTag decode clock safety_buffer w in
  tidyBlacklistCASGuard (final run) = 0
  /\ (exists body, log run = EvAcquire :: body ++ [EvRelease]
                   /\ releases body = [])
  /\ length (releases (log run)) = 1%nat
  /\ (forall safety_buffer', exists evs,
        log (tidyBlacklistRoleTag decode clock safety_buffer' (final run))
        = EvAcquire :: evs).
Proof.
  intros Hg run. subst run. unfold tidyBlacklistRoleTag.
  rewrite Hg. cbn [Z.eqb].
  pose proof (quiet_tidyGuarded safety_buffer (set_guard 1 w)) as [Hq _].
  destruct (tidyGuarded decode clock safety_buffer (set_guard 1 w)) as [[ev w'] r].
  cbn [log final fst snd] in *.
  pose proof (calls_only_no_release _ Hq) as Hrel.
  split; [reflexivity |]. split; [| split].
  - exists ev. split; [reflexivity | exact Hrel].
  - unfold releases in *. cbn. rewrite List.filter_app, Hrel. reflexivity.
  - intros sb'. cbn.
    destruct (tidyGuarded decode clock sb' (set_guard 1 (set_guard 0 w'))) as [[ev2 w2] r2].
    eexists. reflexivity.
Qed.

(** C5.  An invocation that finds the guard held (the guard word is not 0)
    returns the already-running error at once: it logs nothing, so no list,
    fetch or delete is made, and the state, storage and guard word included,
    is the one it found. *)
Theorem already_running_touches_nothing (safety_buffer : Z) (w : World S) :
  tidyBlacklistCASGuard w <> 0 ->
  tidyBlacklistRoleTag decode clock safety_buffer w = ([], w, Some ErrAlreadyRunning).
Proof.
  intros Hg. unfold tidyBlacklistRoleTag.
  destruct (Z.eqb_spec (tidyBlacklistCASGuard w) 0); [contradiction | reflexivity].
Qed.

(** ** The listing *)

(** C8.  When the listing of the namespace is empty and without error, the
    invocation returns nil and makes no fetch and no delete: the listing is
    the one call it makes on the storage. *)
Theorem empty_listing_succeeds (safety_buffer : Z) (w : World S) (s' : S) :
  tidyBlacklistCASGuard w = 0 ->
  List (storage w) "blacklist/roletag/" = (s', inr []) ->
  let run := tidyBlacklistRoleTag decode clock safety_buffer w in
  outcome run = None
  /\ gets (log run) = []
  /\ deletes (log run) = []
  /\ calls (log run) = [EvCall (OpList "blacklist/roletag/")].
Proof.
  intros Hg HList run. subst run.
  unfold tidyBlacklistRoleTag, tidyGuarded, bind, s_List.
  rewrite Hg. cbn. rewrite HList. cbn. repeat split; reflexivity.
Qed.

(** ** The expiration test *)

(** The deletes issued by the iteration on an entry that decodes. *)
Lemma tidyTag_deletes (B : Duration) (tag : string) (w : World S)
    (s' : S) (e : StorageEntry) (entry : roleTagBlacklistEntry) :
  Get (storage w) (fetchKey tag) = (s', inr (Some e)) ->
  Value e <> [] ->
  decode (Value e) = inr entry ->
  deletes (log (tidyTag decode clock B tag w)) =
    if ExpirationTime entry + B <? clock (readings w)
    then [EvCall (OpDelete (deleteKey tag))] else [].
Proof.
  intros HGet Hne Hdec.
  rewrite (tidyTag_decoded B tag w s' e entry HGet Hne Hdec).
  unfold After, Add.
  destruct (ExpirationTime entry + B <? clock (readings w)).
  - cbn [log fst]. rewrite log_wrap_Delete. reflexivity.
  - reflexivity.
Qed.

(** ** Abort in the middle of a listing *)

(** A run whose listing is [pre ++ k :: post], whose loop gets through [pre]
    without error and fails on [k] with [err] after the events [evk]: the
    run is the loop over [pre], then the failing iteration, then the
    release; nothing is done for [post]. *)
Lemma abort_at (safety_buffer : Z) (w : World S) (s1 : S)
    (pre post : list string) (k : string)
    (evs evk : list Event) (w2 wk : World S) (err : error) :
  tidyBlacklistCASGuard w = 0 ->
  List (storage w) "blacklist/roletag/" = (s1, inr (pre ++ k :: post)) ->
  tidyTags decode clock (bufferDuration safety_buffer) pre
    (set_storage s1 (set_guard 1 w)) = (evs, w2, inr tt) ->
  tidyTag decode clock (bufferDuration safety_buffer) k w2 = (evk, wk, inl err) ->
  tidyBlacklistRoleTag decode clock safety_buffer w =
    (EvAcquire :: (EvCall (OpList "blacklist/roletag/") :: evs ++ evk) ++ [EvRelease],
     set_guard 0 wk, Some err).
Proof.
  intros Hg HList Hpre Hk.
  unfold tidyBlacklistRoleTag, tidyGuarded. rewrite Hg. cbn [Z.eqb].
  assert (HL : s_List "blacklist/roletag/" (set_guard 1 w)
               = ([EvCall (OpList "blacklist/roletag/")],
                  set_storage s1 (set_guard 1 w), inr (pre ++ k :: post))).
  { unfold s_List. cbn [storage set_guard]. now rewrite HList. }
  rewrite (bind_ok _ _ _ _ _ _ HL), tidyTags_app.
  rewrite (bind_ok _ _ _ _ _ _ Hpre).
  cbn [tidyTags]. rewrite (bind_err _ _ _ _ _ _ Hk).
  reflexivity.
Qed.

(** C2, as the code has it.  When the listing is [pre ++ k :: post], the
    entries of [pre] are processed without error and the entry [k] has an
    empty payload, the invocation returns the empty-entry error that names
    [k].  It does nothing for the entries after [k]: the fetch of [k] is its
    last call.  What it did for the entries before [k] stands: the events
    [evs] of their iterations, the deletes issued for the expired ones among
    them, are in the log and the storage is the one those calls left. *)
Theorem abort_at_empty_entry (safety_buffer : Z) (w : World S) (s1 s3 : S)
    (pre post : list string) (k : string)
    (evs : list Event) (w2 : World S) (e : StorageEntry) :
  tidyBlacklistCASGuard w = 0 ->
  List (storage w) "blacklist/roletag/" = (s1, inr (pre ++ k :: post)) ->
  tidyTags decode clock (bufferDuration safety_buffer) pre
    (set_storage s1 (set_guard 1 w)) = (evs, w2, inr tt) ->
  Get (storage w2) (fetchKey k) = (s3, inr (Some e)) ->
  Value e = [] ->
  let run := tidyBlacklistRoleTag decode clock safety_buffer w in
  outcome run = Some (ErrEmptyEntry k)
  /\ log run = EvAcquire :: EvCall (OpList "blacklist/roletag/")
                 :: evs ++ [EvCall (OpGet (fetchKey k)); EvRelease]
  /\ deletes (log run) = deletes evs
  /\ storage (final run) = s3.
Proof.
  intros Hg HList Hpre HGet HV run. subst run.
  rewrite (abort_at safety_buffer w s1 pre post k evs _ w2 _ _ Hg HList Hpre
             (tidyTag_empty _ k w2 s3 e HGet HV)).
  cbn [outcome log final fst snd]. split; [reflexivity |]. split; [| split].
  - cbn. now rewrite <- app_assoc.
  - unfold deletes. cbn. rewrite !List.filter_app. cbn. now rewrite !app_nil_r.
  - reflexivity.
Qed.

(** ** A negative buffer *)

Lemma bufferDuration_exact (n : Z) :
  - 9223372036 <= n <= 9223372036 -> bufferDuration n = n * Second.
Proof.
  intros Hn. unfold bufferDuration, int64, Second.
  change (2 ^ 63) with 9223372036854775808.
  change (2 ^ 64) with 18446744073709551616.
  rewrite (Z.mod_small (n + _)) by lia.
  replace (n + 9223372036854775808 - 9223372036854775808) with n by lia.
  rewrite Z.mod_small by lia. lia.
Qed.

End SweeperFacts.

(** ** The frame of a run on the in-memory storage *)

Section InmemFacts.
Variable decode : list byte -> error + roleTagBlacklistEntry.
Variable clock : nat -> Time.

Lemma framed_ret {A} (x : A) : framed (ret x).
Proof. intros w key _. reflexivity. Qed.

Lemma framed_fail {A} (e : error) : framed (@fail Inmem A e).
Proof. intros w key _. reflexivity. Qed.

Lemma framed_bind {A B} (m : M Inmem A) (f : A -> M Inmem B) :
  framed m -> (forall x, framed (f x)) -> framed (bind m f).
Proof.
  intros Hm Hf w key. specialize (Hm w key). unfold bind.
  destruct (m w) as [[ev1 w1] [e | x]]; [exact Hm |].
  specialize (Hf x w1 key). destruct (f x w1) as [[ev2 w2] r].
  cbn in *. intros Hnot. rewrite Hf, Hm; [reflexivity | |];
    intros Hin; apply Hnot, in_or_app; auto.
Qed.

Lemma framed_wrap {A} g (m : M Inmem A) : framed m -> framed (wrap g m).
Proof.
  intros Hm w key. specialize (Hm w key). unfold wrap.
  destruct (m w) as [[ev w1] [e | x]]; exact Hm.
Qed.

Lemma framed_List prefix : framed (s_List prefix).
Proof. intros w key _. reflexivity. Qed.

Lemma framed_Get key : framed (s_Get key).
Proof. intros w key' _. reflexivity. Qed.

Lemma framed_Now : framed (time_Now clock).
Proof. intros w key _. reflexivity. Qed.

Lemma framed_Delete key : framed (s_Delete key).
Proof.
  intros w key' Hnot.
  assert (Hne : key <> key').
  { intros ->. apply Hnot. unfold s_Delete.
    destruct (Delete (storage w) key') as [s' r]. left. reflexivity. }
  unfold s_Delete. cbn.
  destruct (fault (storage w) (OpDelete key)); cbn; [reflexivity |].
  now apply lookup_delete_ne.
Qed.

Lemma framed_tidyTag B tag : framed (tidyTag decode clock B tag).
Proof.
  unfold tidyTag.
  apply framed_bind; [apply framed_wrap, framed_Get |].
  intros [e |]; [| apply framed_fail].
  destruct (length (Value e) =? 0)%nat; [apply framed_fail |].
  destruct (DecodeJSON decode e) as [err | entry]; [apply framed_fail |].
  apply framed_bind; [apply framed_Now |].
  intros now. destruct (After now _).
  - apply framed_wrap, framed_Delete.
  - apply framed_ret.
Qed.

Lemma framed_tidyTags B tags : framed (tidyTags decode clock B tags).
Proof.
  induction tags as [| tag rest IH]; cbn.
  - apply framed_ret.
  - apply framed_bind; [apply framed_tidyTag | intros _; exact IH].
Qed.

(** On the in-memory storage a run changes the value of no key other than
    those it issues a delete for. *)
Lemma tidyBlacklistRoleTag_frame (safety_buffer : Z) (w : World Inmem) (key : string) :
  ~ In (EvCall (OpDelete key)) (log (tidyBlacklistRoleTag decode clock safety_buffer w)) ->
  data (storage (final (tidyBlacklistRoleTag decode clock safety_buffer w))) !! key
  = data (storage w) !! key.
Proof.
  unfold tidyBlacklistRoleTag.
  destruct (tidyBlacklistCASGuard w =? 0); [| reflexivity].
  assert (Hf : framed (tidyGuarded decode clock safety_buffer)).
  { unfold tidyGuarded. apply framed_bind; [apply framed_List |].
    intros tags. apply framed_tidyTags. }
  specialize (Hf (set_guard 1 w) key).
  destruct (tidyGuarded decode clock safety_buffer (set_guard 1 w)) as [[ev w'] r].
  cbn in *. intros Hnot. apply Hf. intros Hin. apply Hnot. right.
  apply in_or_app. auto.
Qed.

End InmemFacts.

(** ** Runs on the in-memory storage *)

Lemma deleteKey_neq_fetchKey (tag : string) : deleteKey tag <> fetchKey tag.
Proof.
  unfold deleteKey, fetchKey. cbv [String.append]. intros Heq.
  repeat (injection Heq as Heq).
  apply (f_equal String.length) in Heq. cbn [String.length] in Heq. lia.
Qed.

(** C1, on the code.  The key the loop deletes is not the key it fetches:
    the fetch key is the prefix with its trailing separator followed by the
    tag, the delete key is the prefix without the separator followed by the
    tag, and the two differ for every tag.  On a storage with the one
    expired entry a, the run fetches blacklist/roletag/a, deletes
    blacklist/roletaga, returns nil, and the expired entry is still
    stored. *)
Theorem delete_key_lacks_separator :
  (forall tag : string,
      fetchKey tag = "blacklist/roletag/" +:+ tag
      /\ deleteKey tag = "blacklist/roletag" +:+ tag
      /\ deleteKey tag <> fetchKey tag)
  /\ (let run := tidyBlacklistRoleTag decodeDecimal (frozenClock 1000) 0 (idle store_one) in
      log run = [EvAcquire; EvCall (OpList "blacklist/roletag/");
                 EvCall (OpGet "blacklist/roletag/a");
                 EvCall (OpDelete "blacklist/roletaga"); EvRelease]
      /\ outcome run = None
      /\ data (storage (final run)) !! "blacklist/roletag/a" = Some (payload "100")).
Proof.
  split.
  - intros tag. repeat split. apply deleteKey_neq_fetchKey.
  - vm_compute. repeat split.
Qed.

(** C2, as stated, fails.  The listing is a then b, b has an empty payload
    and a expired long ago: the run returns the empty-entry error for b, yet
    it has issued a delete while processing a, and the storage is not the
    one it started from. *)
Lemma partial_deletes_before_abort :
  let run := tidyBlacklistRoleTag decodeDecimal (frozenClock 1000) 0 (idle store_abort) in
  fst (List store_abort "blacklist/roletag/") = store_abort
  /\ snd (List store_abort "blacklist/roletag/") = inr ["a"; "b"]
  /\ data store_abort !! "blacklist/roletag/b" = Some []
  /\ outcome run = Some (ErrEmptyEntry "b")
  /\ deletes (log run) = [EvCall (OpDelete "blacklist/roletaga")]
  /\ data store_abort !! "blacklist/roletaga" = Some (payload "7")
  /\ data (storage (final run)) !! "blacklist/roletaga" = None
  /\ ~ (deletes (log run) = [] /\ data (storage (final run)) = data store_abort).
Proof.
  cbv zeta. repeat split; try (vm_compute; reflexivity).
  intros [Hd _]. vm_compute in Hd. discriminate Hd.
Qed.

(** The abort on the storage with a expired and b empty. *)
Lemma abort_at_empty_entry_witness :
  let run := tidyBlacklistRoleTag decodeDecimal (frozenClock 1000) 0 (idle store_abort) in
  outcome run = Some (ErrEmptyEntry "b")
  /\ log run = EvAcquire :: EvCall (OpList "blacklist/roletag/")
                 :: [EvCall (OpGet "blacklist/roletag/a");
                     EvCall (OpDelete "blacklist/roletaga")]
                 ++ [EvCall (OpGet (fetchKey "b")); EvRelease]
  /\ deletes (log run) = deletes [EvCall (OpGet "blacklist/roletag/a");
                                  EvCall (OpDelete "blacklist/roletaga")]
  /\ storage (final run) = mkInmem (delete "blacklist/roletaga" (data store_abort)) no_fault.
Proof.
  apply (abort_at_empty_entry decodeDecimal (frozenClock 1000) 0 (idle store_abort)
           store_abort (mkInmem (delete "blacklist/roletaga" (data store_abort)) no_fault)
           ["a"] [] "b"
           [EvCall (OpGet "blacklist/roletag/a"); EvCall (OpDelete "blacklist/roletaga")]
           (mkWorld 1 (mkInmem (delete "blacklist/roletaga" (data store_abort)) no_fault) 1)
           (mkStorageEntry "blacklist/roletag/b" [])).
  - reflexivity.
  - vm_compute. reflexivity.
  - vm_compute. reflexivity.
  - vm_compute. reflexivity.
  - reflexivity.
Defined.

(** The guard after a run that fails on an empty entry. *)
Lemma guard_released_exactly_once_witness :
  let run := tidyBlacklistRoleTag decodeDecimal (frozenClock 1000) 0 (idle store_abort) in
  outcome run = Some (ErrEmptyEntry "b")
  /\ tidyBlacklistCASGuard (final run) = 0
  /\ length (releases (log run)) = 1%nat.
Proof.
  split; [vm_compute; reflexivity |].
  destruct (guard_released_exactly_once decodeDecimal (frozenClock 1000) 0
              (idle store_abort) eq_refl) as (Hg & _ & Hn & _).
  split; [exact Hg | exact Hn].
Defined.

(** A run started with the guard word at 1. *)
Lemma already_running_touches_nothing_witness :
  tidyBlacklistRoleTag decodeDecimal (frozenClock 1000) 0 (mkWorld 1 store_one 0)
  = ([], mkWorld 1 store_one 0, Some ErrAlreadyRunning).
Proof.
  apply (already_running_touches_nothing decodeDecimal (frozenClock 1000) 0
           (mkWorld 1 store_one 0)).
  cbn. lia.
Defined.

(** A run on the empty storage with the default buffer. *)
Lemma empty_listing_succeeds_witness :
  let run := tidyBlacklistRoleTag decodeDecimal (frozenClock 1000) default_safety_buffer
               (idle store_empty) in
  outcome run = None
  /\ gets (log run) = []
  /\ deletes (log run) = []
  /\ calls (log run) = [EvCall (OpList "blacklist/roletag/")].
Proof.
  apply (empty_listing_succeeds decodeDecimal (frozenClock 1000) default_safety_buffer
           (idle store_empty) store_empty).
  - reflexivity.
  - vm_compute. reflexivity.
Defined.

(** C6, on the code.  The same undecodable payload stored under tag a and
    under tag b: both runs return the error of the decoder as it is, the
    same value in both, with nothing of the tag or the key in it. *)
Theorem decode_error_does_not_name_the_key :
  let run_a := tidyBlacklistRoleTag decodeDecimal (frozenClock 1000) 0
                 (idle (store_garbled "a")) in
  let run_b := tidyBlacklistRoleTag decodeDecimal (frozenClock 1000) 0
                 (idle (store_garbled "b")) in
  gets (log run_a) = [EvCall (OpGet "blacklist/roletag/a")]
  /\ gets (log run_b) = [EvCall (OpGet "blacklist/roletag/b")]
  /\ decodeDecimal (payload "x") = inl (ErrOther "invalid character in payload")
  /\ outcome run_a = Some (ErrOther "invalid character in payload")
  /\ outcome run_b = outcome run_a.
Proof. vm_compute. repeat split. Qed.

(** C7, on the code.  Two runs in a row on a storage with the one expired
    entry a, same buffer, same clock, nothing inserted in between.  The
    first run returns nil but leaves the expired entry in the storage, since
    the delete it issued names another key; the second run finds the entry
    again and issues the same delete again. *)
Theorem second_run_deletes_again :
  let run1 := tidyBlacklistRoleTag decodeDecimal (frozenClock 1000) 0 (idle store_one) in
  let run2 := tidyBlacklistRoleTag decodeDecimal (frozenClock 1000) 0 (final run1) in
  outcome run1 = None
  /\ deletes (log run1) = [EvCall (OpDelete "blacklist/roletaga")]
  /\ data (storage (final run1)) !! "blacklist/roletag/a" = Some (payload "100")
  /\ outcome run2 = None
  /\ deletes (log run2) = [EvCall (OpDelete "blacklist/roletaga")]
  /\ data (storage (final run2)) !! "blacklist/roletag/a" = Some (payload "100").
Proof. vm_compute. repeat split. Qed.

(** C9, on the code.  A listed entry that is not expired is removed by the
    delete issued for another entry.  Tag o expires at 2000 and tag /o at
    100; at time 1000 with no buffer the run issues no delete in the
    iteration of o, then deletes blacklist/roletag/o, the key of o, in the
    iteration of /o, and returns nil: the entry o is gone.  The same with
    the empty tag and the tag /. *)
Theorem unexpired_entry_removed :
  (let run := tidyBlacklistRoleTag decodeDecimal (frozenClock 1000) 0 (idle store_slash) in
   log run = [EvAcquire; EvCall (OpList "blacklist/roletag/");
              EvCall (OpGet "blacklist/roletag/o");
              EvCall (OpGet "blacklist/roletag//o");
              EvCall (OpDelete "blacklist/roletag/o"); EvRelease]
   /\ outcome run = None
   /\ data store_slash !! fetchKey "o" = Some (payload "2000")
   /\ decodeDecimal (payload "2000") = inr (mkRoleTagBlacklistEntry 2000)
   /\ (1000 >? 2000 + bufferDuration 0) = false
   /\ data (storage (final run)) !! fetchKey "o" = None)
  /\ (let run := tidyBlacklistRoleTag decodeDecimal (frozenClock 1000) 0
                   (idle store_slash_empty) in
      deletes (log run) = [EvCall (OpDelete "blacklist/roletag/")]
      /\ data store_slash_empty !! fetchKey "" = Some (payload "2000")
      /\ data (storage (final run)) !! fetchKey "" = None).
Proof. vm_compute. repeat split. Qed.

(** C10, as stated, fails for a large k.  With a buffer of -9223372037
    seconds the product with a second leaves the 64-bit range and wraps to a
    positive duration: an entry expiring at instant 0 is not deleted at
    instant 1, though 1 is after 0 minus 9223372037 seconds. *)
Lemma negative_buffer_wraps :
  let k := 9223372037 in
  let run := tidyBlacklistRoleTag decodeDecimal (frozenClock 1) (- k) (idle store_epoch) in
  bufferDuration (- k) = 9223372036709551616
  /\ outcome run = None
  /\ gets (log run) = [EvCall (OpGet "blacklist/roletag/a")]
  /\ deletes (log run) = []
  /\ 1 > 0 - k * Second
  /\ ~ (deletes (log (tidyTag decodeDecimal (frozenClock 1) (bufferDuration (- k)) "a"
                        (idle store_epoch))) <> []
        <-> 1 > 0 - k * Second).
Proof.
  cbv zeta. repeat split; try (vm_compute; reflexivity).
  intros [_ Hback].
  apply Hback; [vm_compute; reflexivity | vm_compute; reflexivity].
Qed.

(** Each way the function can return is taken by some run, and the guard
    word is 0 after each of them. *)
Lemma every_outcome_releases :
  let tidy := tidyBlacklistRoleTag decodeDecimal (frozenClock 1000) 0 in
  let io := ErrOther "storage unavailable" in
  let released (w : World Inmem) (r : option error) :=
    outcome (tidy w) = r /\ tidyBlacklistCASGuard (final (tidy w)) = 0 in
  released (idle store_one) None
  /\ released (idle (mkInmem (data store_one) (fault_on (OpList "blacklist/roletag/") io)))
       (Some io)
  /\ released (idle (mkInmem (data store_one) (fault_on (OpGet "blacklist/roletag/a") io)))
       (Some (ErrFetch "a" io))
  /\ released (idle store_slash_empty) (Some (ErrNilEntry ""))
  /\ released (idle store_abort) (Some (ErrEmptyEntry "b"))
  /\ released (idle (store_garbled "a")) (Some (ErrOther "invalid character in payload"))
  /\ released (idle (mkInmem (data store_one) (fault_on (OpDelete "blacklist/roletaga") io)))
       (Some (ErrDelete "a" io)).
Proof. vm_compute. repeat split. Qed.

(** ** The other ways out of the loop *)

Section SweeperPaths.
Context {S : Type} `{Storage S}.
Variable decode : list byte -> error + roleTagBlacklistEntry.
Variable clock : nat -> Time.

Lemma tidyTag_fetch_error B tag w s' err :
  Get (storage w) (fetchKey tag) = (s', inl err) ->
  tidyTag decode clock B tag w =
    ([ev_get tag], set_storage s' w, inl (ErrFetch tag err)).
Proof.
  intros HGet. unfold tidyTag, bind, wrap, s_Get. now rewrite HGet.
Qed.

Lemma tidyTag_nil B tag w s' :
  Get (storage w) (fetchKey tag) = (s', inr None) ->
  tidyTag decode clock B tag w =
    ([ev_get tag], set_storage s' w, inl (ErrNilEntry tag)).
Proof.
  intros HGet. unfold tidyTag, bind, wrap, s_Get. now rewrite HGet.
Qed.

Lemma tidyTag_delete_error B tag w s' s'' e entry err :
  Get (storage w) (fetchKey tag) = (s', inr (Some e)) ->
  Value e <> [] ->
  decode (Value e) = inr entry ->
  ExpirationTime entry + B < clock (readings w) ->
  Delete s' (deleteKey tag) = (s'', Some err) ->
  tidyTag decode clock B tag w =
    ([ev_get tag; ev_delete tag], tick (set_storage s'' w), inl (ErrDelete tag err)).
Proof.
  intros HGet Hne Hdec Hdue HDel.
  rewrite (tidyTag_decoded decode clock B tag w s' e entry HGet Hne Hdec).
  unfold After, Add. apply Z.ltb_lt in Hdue. rewrite Hdue.
  unfold wrap, s_Delete. cbn [storage tick set_storage]. rewrite HDel.
  reflexivity.
Qed.

(** X1.  When the listing fails, the invocation returns the error of the
    listing as it is, makes no other call on the storage, and releases the
    guard. *)
Theorem list_failure_returned_as_is (safety_buffer : Z) (w : World S) (s1 : S)
    (err : error) :
  tidyBlacklistCASGuard w = 0 ->
  List (storage w) "blacklist/roletag/" = (s1, inl err) ->
  tidyBlacklistRoleTag decode clock safety_buffer w =
    ([EvAcquire; EvCall (OpList "blacklist/roletag/"); EvRelease],
     mkWorld 0 s1 (readings w), Some err).
Proof.
  intros Hg HList. unfold tidyBlacklistRoleTag, tidyGuarded, bind, s_List.
  rewrite Hg. cbn. now rewrite HList.
Qed.

(** X2.  When the fetch of the listed tag k fails, after the tags before it
    went through, the invocation returns that error wrapped with the tag k;
    the failed fetch is its last call: no clock reading, no delete for k and
    nothing for the tags after k. *)
Theorem fetch_failure_names_the_tag (safety_buffer : Z) (w : World S) (s1 s3 : S)
    (pre post : list string) (k : string)
    (evs : list Event) (w2 : World S) (err : error) :
  tidyBlacklistCASGuard w = 0 ->
  List (storage w) "blacklist/roletag/" = (s1, inr (pre ++ k :: post)) ->
  tidyTags decode clock (bufferDuration safety_buffer) pre
    (set_storage s1 (set_guard 1 w)) = (evs, w2, inr tt) ->
  Get (storage w2) (fetchKey k) = (s3, inl err) ->
  let run := tidyBlacklistRoleTag decode clock safety_buffer w in
  outcome run = Some (ErrFetch k err)
  /\ log run = EvAcquire :: EvCall (OpList "blacklist/roletag/")
                 :: evs ++ [ev_get k; EvRelease]
  /\ final run = mkWorld 0 s3 (readings w2).
Proof.
  intros Hg HList Hpre HGet run. subst run.
  rewrite (abort_at decode clock safety_buffer w s1 pre post k evs _ w2 _ _ Hg HList Hpre
             (tidyTag_fetch_error _ k w2 s3 err HGet)).
  cbn [outcome log final fst snd]. repeat split.
  cbn. now rewrite <- app_assoc.
Qed.

(** X3.  When the listed tag k has no record (the fetch returns nil without
    error), the invocation does not skip it: it returns the nil-entry error
    that names k and stops there. *)
Theorem missing_entry_aborts (safety_buffer : Z) (w : World S) (s1 s3 : S)
    (pre post : list string) (k : string)
    (evs : list Event) (w2 : World S) :
  tidyBlacklistCASGuard w = 0 ->
  List (storage w) "blacklist/roletag/" = (s1, inr (pre ++ k :: post)) ->
  tidyTags decode clock (bufferDuration safety_buffer) pre
    (set_storage s1 (set_guard 1 w)) = (evs, w2, inr tt) ->
  Get (storage w2) (fetchKey k) = (s3, inr None) ->
  let run := tidyBlacklistRoleTag decode clock safety_buffer w in
  outcome run = Some (ErrNilEntry k)
  /\ log run = EvAcquire :: EvCall (OpList "blacklist/roletag/")
                 :: evs ++ [ev_get k; EvRelease]
  /\ final run = mkWorld 0 s3 (readings w2).
Proof.
  intros Hg HList Hpre HGet run. subst run.
  rewrite (abort_at decode clock safety_buffer w s1 pre post k evs _ w2 _ _ Hg HList Hpre
             (tidyTag_nil _ k w2 s3 HGet)).
  cbn [outcome log final fst snd]. repeat split.
  cbn. now rewrite <- app_assoc.
Qed.

(** X4.  When the delete of the due entry k fails, the invocation returns
    that error wrapped with the tag k and stops: the entries after k are
    neither fetched nor deleted, and one reading of the clock was taken for
    k. *)
Theorem delete_failure_names_the_tag (safety_buffer : Z) (w : World S) (s1 s3 s4 : S)
    (pre post : list string) (k : string)
    (evs : list Event) (w2 : World S) (e : StorageEntry)
    (entry : roleTagBlacklistEntry) (err : error) :
  tidyBlacklistCASGuard w = 0 ->
  List (storage w) "blacklist/roletag/" = (s1, inr (pre ++ k :: post)) ->
  tidyTags decode clock (bufferDuration safety_buffer) pre
    (set_storage s1 (set_guard 1 w)) = (evs, w2, inr tt) ->
  Get (storage w2) (fetchKey k) = (s3, inr (Some e)) ->
  Value e <> [] ->
  decode (Value e) = inr entry ->
  ExpirationTime entry + bufferDuration safety_buffer < clock (readings w2) ->
  Delete s3 (deleteKey k) = (s4, Some err) ->
  let run := tidyBlacklistRoleTag decode clock safety_buffer w in
  outcome run = Some (ErrDelete k err)
  /\ log run = EvAcquire :: EvCall (OpList "blacklist/roletag/")
                 :: evs ++ [ev_get k; ev_delete k; EvRelease]
  /\ final run = mkWorld 0 s4 (Datatypes.S (readings w2)).
Proof.
  intros Hg HList Hpre HGet Hne Hdec Hdue HDel run. subst run.
  rewrite (abort_at decode clock safety_buffer w s1 pre post k evs _ w2 _ _ Hg HList Hpre
             (tidyTag_delete_error _ k w2 s3 s4 e entry err HGet Hne Hdec Hdue HDel)).
  cbn [outcome log final fst snd]. repeat split.
  cbn. now rewrite <- app_assoc.
Qed.

(** X5.  When the payload of the listed tag k does not decode, the
    invocation returns the error of the decoder unchanged and stops: no
    reading of the clock, no delete for k, nothing for the tags after k. *)
Theorem decode_failure_returned_as_is (safety_buffer : Z) (w : World S) (s1 s3 : S)
    (pre post : list string) (k : string)
    (evs : list Event) (w2 : World S) (e : StorageEntry) (err : error) :
  tidyBlacklistCASGuard w = 0 ->
  List (storage w) "blacklist/roletag/" = (s1, inr (pre ++ k :: post)) ->
  tidyTags decode clock (bufferDuration safety_buffer) pre
    (set_storage s1 (set_guard 1 w)) = (evs, w2, inr tt) ->
  Get (storage w2) (fetchKey k) = (s3, inr (Some e)) ->
  Value e <> [] ->
  decode (Value e) = inl err ->
  let run := tidyBlacklistRoleTag decode clock safety_buffer w in
  outcome run = Some err
  /\ log run = EvAcquire :: EvCall (OpList "blacklist/roletag/")
                 :: evs ++ [ev_get k; EvRelease]
  /\ final run = mkWorld 0 s3 (readings w2).
Proof.
  intros Hg HList Hpre HGet Hne Hdec run. subst run.
  rewrite (abort_at decode clock safety_buffer w s1 pre post k evs _ w2 _ _ Hg HList Hpre
             (tidyTag_undecodable decode clock _ k w2 s3 e err HGet Hne Hdec)).
  cbn [outcome log final fst snd]. repeat split.
  cbn. now rewrite <- app_assoc.
Qed.

End SweeperPaths.

(** ** The calls of a run against its listing *)

Section SweeperCalls.
Context {S : Type} `{Storage S}.
Variable decode : list byte -> error + roleTagBlacklistEntry.
Variable clock : nat -> Time.

(** An iteration logs the fetch of its tag, then at most the delete of its
    tag, and reads the clock once when it goes through. *)
Lemma tidyTag_shape B tag w :
  (log (tidyTag decode clock B tag w) = [ev_get tag]
   \/ log (tidyTag decode clock B tag w) = [ev_get tag; ev_delete tag])
  /\ (outcome (tidyTag decode clock B tag w) = inr tt ->
      readings (final (tidyTag decode clock B tag w)) = Datatypes.S (readings w)).
Proof.
  unfold tidyTag, bind, wrap, s_Get, s_Delete, time_Now, fail, ret, ev_get, ev_delete.
  destruct (Get (storage w) (fetchKey tag)) as [s' [err | [e |]]]; cbn;
    try (split; [left; reflexivity | discriminate]).
  destruct (length (Value e) =? 0)%nat; cbn;
    try (split; [left; reflexivity | discriminate]).
  destruct (DecodeJSON decode e) as [err | entry]; cbn;
    try (split; [left; reflexivity | discriminate]).
  destruct (After _ _); cbn.
  - destruct (Delete s' (deleteKey tag)) as [s'' [err |]]; cbn;
      (split; [right; reflexivity | try discriminate; reflexivity]).
  - split; [left; reflexivity | reflexivity].
Qed.

Lemma tidyTags_follow B tags : forall w,
  exists fetched : list string,
    fetched `prefix_of` tags
    /\ gets (log (tidyTags decode clock B tags w)) = map ev_get fetched
    /\ deletes (log (tidyTags decode clock B tags w)) `sublist_of` map ev_delete fetched
    /\ lists (log (tidyTags decode clock B tags w)) = []
    /\ (outcome (tidyTags decode clock B tags w) = inr tt ->
        fetched = tags
        /\ readings (final (tidyTags decode clock B tags w))
           = (readings w + length tags)%nat).
Proof.
  induction tags as [| tag rest IH]; intros w.
  - exists []. cbn. repeat split; try reflexivity; try constructor. lia.
  - cbn [tidyTags]. unfold bind.
    destruct (tidyTag_shape B tag w) as [Hlog Hread].
    destruct (tidyTag decode clock B tag w) as [[ev1 w1] [e | []]];
      cbn [log final outcome fst snd] in *.
    + exists [tag]. split; [apply prefix_cons, prefix_nil |].
      destruct Hlog as [-> | ->]; cbn; repeat split; try discriminate.
      * apply sublist_nil_l.
      * reflexivity.
    + destruct (IH w1) as (fetched & Hpre & Hgets & Hdel & Hlist & Hok).
      destruct (tidyTags decode clock B rest w1) as [[ev2 w2] r];
        cbn [log final outcome fst snd] in *.
      exists (tag :: fetched). split; [now apply prefix_cons |].
      unfold gets, deletes, lists in *. rewrite !List.filter_app, Hgets, Hlist.
      split; [| split; [| split]].
      * destruct Hlog as [-> | ->]; reflexivity.
      * destruct Hlog as [-> | ->]; cbn.
        -- now apply sublist_cons.
        -- now apply sublist_skip.
      * destruct Hlog as [-> | ->]; reflexivity.
      * intros Hr. destruct (Hok Hr) as [-> ->]. split; [reflexivity |].
        rewrite (Hread eq_refl). cbn. lia.
Qed.

(** X6.  The calls of an invocation on the storage: it never calls Put; an
    invocation that takes the guard lists the one prefix blacklist/roletag/
    once, before anything else, and every other call is a fetch or a delete;
    an invocation that finds the guard held makes no call. *)
Theorem one_listing_and_no_put (safety_buffer : Z) (w : World S) :
  let run := tidyBlacklistRoleTag decode clock safety_buffer w in
  puts (log run) = []
  /\ lists (log run) =
       (if tidyBlacklistCASGuard w =? 0 then [EvCall (OpList "blacklist/roletag/")] else [])
  /\ calls (log run) = lists (log run) ++ List.filter (fun e => is_get e || is_delete e) (log run)
  /\ (if tidyBlacklistCASGuard w =? 0
      then exists rest, log run = EvAcquire :: EvCall (OpList "blacklist/roletag/") :: rest
      else log run = []).
Proof.
  intros run. subst run. unfold tidyBlacklistRoleTag.
  destruct (tidyBlacklistCASGuard w =? 0); [| repeat split].
  unfold tidyGuarded, bind, s_List. cbn [storage set_guard].
  destruct (List (storage w) "blacklist/roletag/") as [s1 [err | tags]].
  - cbn. repeat split. eexists. reflexivity.
  - destruct (tidyTags_follow (bufferDuration safety_buffer) tags
                (set_storage s1 (mkWorld 1 (storage w) (readings w))))
      as (fetched & _ & _ & _ & Hlist & _).
    pose proof (quiet_tidyTags decode clock (bufferDuration safety_buffer) tags
                  (set_storage s1 (mkWorld 1 (storage w) (readings w)))) as [Hq _].
    destruct (tidyTags decode clock _ tags _) as [[ev w'] r].
    cbn [log final outcome fst snd] in *.
    assert (Hputs : puts ev = []) by (apply calls_only_no_put; exact Hq).
    assert (Hcalls : calls ev = List.filter (fun e => is_get e || is_delete e) ev).
    { clear -Hlist Hq. unfold calls, lists in *.
      induction Hq as [| e ev He _ IH]; [reflexivity |].
      cbn in *. destruct e as [| | [p | k | k | k]]; cbn in *;
        try discriminate; f_equal; apply IH; assumption. }
    unfold puts, lists, calls in *. cbn.
    rewrite !List.filter_app, Hputs, Hlist, Hcalls. cbn.
    repeat split. eexists. reflexivity.
Qed.

(** X7.  Which keys an invocation touches.  With the listing [tags], the
    fetches of the run are the fetch keys of the first tags of the listing,
    in the order of the listing and once each; its deletes are delete keys
    of tags it fetched, in that order, at most one for each.  When the run
    returns nil every listed tag was fetched and the clock was read once for
    each. *)
Theorem calls_follow_the_listing (safety_buffer : Z) (w : World S) (s1 : S)
    (tags : list string) :
  tidyBlacklistCASGuard w = 0 ->
  List (storage w) "blacklist/roletag/" = (s1, inr tags) ->
  let run := tidyBlacklistRoleTag decode clock safety_buffer w in
  exists fetched : list string,
    fetched `prefix_of` tags
    /\ gets (log run) = map ev_get fetched
    /\ deletes (log run) `sublist_of` map ev_delete fetched
    /\ (outcome run = None ->
        fetched = tags /\ readings (final run) = (readings w + length tags)%nat).
Proof.
  intros Hg HList run. subst run.
  unfold tidyBlacklistRoleTag, tidyGuarded, bind, s_List.
  rewrite Hg. cbn [Z.eqb storage set_guard]. rewrite HList.
  destruct (tidyTags_follow (bufferDuration safety_buffer) tags
              (set_storage s1 (mkWorld 1 (storage w) (readings w))))
    as (fetched & Hpre & Hgets & Hdel & _ & Hok).
  destruct (tidyTags decode clock _ tags _) as [[ev w'] r].
  cbn [log final outcome fst snd] in *.
  exists fetched. split; [exact Hpre |].
  unfold gets, deletes in *. cbn. rewrite !List.filter_app. cbn.
  rewrite !app_nil_r. split; [exact Hgets |]. split; [exact Hdel |].
  intros Hr. destruct r as [e | []]; [discriminate |].
  destruct (Hok eq_refl) as [-> Hread]. split; [reflexivity |].
  cbn in *. exact Hread.
Qed.

End SweeperCalls.

(** ** The buffer within and beyond the range of a duration *)

Section SweeperBuffer.
Context {S : Type} `{Storage S}.
Variable decode : list byte -> error + roleTagBlacklistEntry.
Variable clock : nat -> Time.

Lemma bufferDuration_wrapped (n : Z) :
  9223372037 <= n <= 18446744073 -> bufferDuration n = n * Second - 2 ^ 64.
Proof.
  intros Hn. unfold bufferDuration, int64, Second.
  change (2 ^ 63) with 9223372036854775808.
  change (2 ^ 64) with 18446744073709551616.
  rewrite (Z.mod_small (n + _)) by lia.
  replace (n + 9223372036854775808 - 9223372036854775808) with n by lia.
  replace (n * 1000000000 + 9223372036854775808)
    with (n * 1000000000 - 9223372036854775808 + 1 * 18446744073709551616) by lia.
  rewrite Z.mod_add by lia. rewrite Z.mod_small by lia. lia.
Qed.

End SweeperBuffer.

(** ** Runs on the in-memory storage: what changes and what does not *)

Section InmemSweep.
Variable decode : list byte -> error + roleTagBlacklistEntry.
Variable clock : nat -> Time.

Lemma shrinking_ret {A} (x : A) : shrinking (ret x).
Proof. intros w. split; [reflexivity | intros key; left; reflexivity]. Qed.

Lemma shrinking_fail {A} (e : error) : shrinking (@fail Inmem A e).
Proof. intros w. split; [reflexivity | intros key; left; reflexivity]. Qed.

Lemma shrinking_bind {A B} (m : M Inmem A) (f : A -> M Inmem B) :
  shrinking m -> (forall x, shrinking (f x)) -> shrinking (bind m f).
Proof.
  intros Hm Hf w. specialize (Hm w). unfold bind.
  destruct (m w) as [[ev1 w1] [e | x]]; [exact Hm |].
  specialize (Hf x w1). destruct (f x w1) as [[ev2 w2] r].
  cbn [log final fst snd] in *.
  destruct Hm as [Hm1 Hm2], Hf as [Hf1 Hf2].
  split; [congruence |].
  intros key. destruct (Hf2 key) as [Heq | [Hnone Hin]].
  - destruct (Hm2 key) as [Heq1 | [Hnone1 Hin1]].
    + left. congruence.
    + right. split; [congruence | apply in_or_app; auto].
  - right. split; [exact Hnone | apply in_or_app; auto].
Qed.

Lemma shrinking_wrap {A} g (m : M Inmem A) : shrinking m -> shrinking (wrap g m).
Proof.
  intros Hm w. specialize (Hm w). unfold wrap.
  destruct (m w) as [[ev w1] [e | x]]; exact Hm.
Qed.

Lemma shrinking_List prefix : shrinking (s_List prefix).
Proof. intros w. split; [reflexivity | intros key; left; reflexivity]. Qed.

Lemma shrinking_Get key : shrinking (s_Get key).
Proof. intros w. split; [reflexivity | intros key'; left; reflexivity]. Qed.

Lemma shrinking_Now : shrinking (time_Now clock).
Proof. intros w. split; [reflexivity | intros key; left; reflexivity]. Qed.

Lemma shrinking_Delete key : shrinking (s_Delete key).
Proof.
  intros w. unfold s_Delete. cbn.
  destruct (fault (storage w) (OpDelete key)); cbn.
  - split; [reflexivity | intros key'; left; reflexivity].
  - split; [reflexivity |]. intros key'.
    destruct (decide (key = key')) as [<- | Hne].
    + right. split; [apply lookup_delete_eq | left; reflexivity].
    + left. now apply lookup_delete_ne.
Qed.

Lemma shrinking_tidyTag B tag : shrinking (tidyTag decode clock B tag).
Proof.
  unfold tidyTag.
  apply shrinking_bind; [apply shrinking_wrap, shrinking_Get |].
  intros [e |]; [| apply shrinking_fail].
  destruct (length (Value e) =? 0)%nat; [apply shrinking_fail |].
  destruct (DecodeJSON decode e) as [err | entry]; [apply shrinking_fail |].
  apply shrinking_bind; [apply shrinking_Now |].
  intros now. destruct (After now _).
  - apply shrinking_wrap, shrinking_Delete.
  - apply shrinking_ret.
Qed.

Lemma shrinking_tidyTags B tags : shrinking (tidyTags decode clock B tags).
Proof.
  induction tags as [| tag rest IH]; cbn.
  - apply shrinking_ret.
  - apply shrinking_bind; [apply shrinking_tidyTag | intros _; exact IH].
Qed.

Lemma shrinking_run (safety_buffer : Z) (w : World Inmem) :
  fault (storage (final (tidyBlacklistRoleTag decode clock safety_buffer w)))
  = fault (storage w)
  /\ forall key : string,
      data (storage (final (tidyBlacklistRoleTag decode clock safety_buffer w))) !! key
      = data (storage w) !! key
      \/ (data (storage (final (tidyBlacklistRoleTag decode clock safety_buffer w))) !! key
          = None
          /\ In (EvCall (OpDelete key))
               (log (tidyBlacklistRoleTag decode clock safety_buffer w))).
Proof.
  unfold tidyBlacklistRoleTag.
  destruct (tidyBlacklistCASGuard w =? 0);
    [| split; [reflexivity | intros key; left; reflexivity]].
  assert (Hs : shrinking (tidyGuarded decode clock safety_buffer)).
  { unfold tidyGuarded. apply shrinking_bind; [apply shrinking_List |].
    intros tags. apply shrinking_tidyTags. }
  specialize (Hs (set_guard 1 w)).
  destruct (tidyGuarded decode clock safety_buffer (set_guard 1 w)) as [[ev w'] r].
  cbn [log final fst snd storage set_guard] in *.
  destruct Hs as [Hf Hk]. split; [exact Hf |].
  intros key. destruct (Hk key) as [Heq | [Hnone Hin]]; [left; exact Heq |].
  right. split; [exact Hnone |]. right. apply in_or_app. auto.
Qed.

(** Every delete of a run names the delete key of a tag of its listing. *)
Lemma run_delete_inv (safety_buffer : Z) (w : World Inmem) (key : string) :
  In (EvCall (OpDelete key)) (log (tidyBlacklistRoleTag decode clock safety_buffer w)) ->
  exists tag : string,
    In tag (inmem_keys "blacklist/roletag/" (data (storage w)))
    /\ key = deleteKey tag.
Proof.
  unfold tidyBlacklistRoleTag.
  destruct (tidyBlacklistCASGuard w =? 0); [| intros []].
  unfold tidyGuarded, bind, s_List. cbn [storage set_guard List Inmem_Storage].
  destruct (fault (storage w) (OpList "blacklist/roletag/")) as [err |].
  { cbn. intros [Hin | [Hin | [Hin | []]]]; discriminate. }
  set (tags := inmem_keys "blacklist/roletag/" (data (storage w))).
  destruct (tidyTags_follow decode clock (bufferDuration safety_buffer) tags
              (set_storage (storage w) (mkWorld 1 (storage w) (readings w))))
    as (fetched & [rest Hpre] & _ & Hdel & _ & _).
  destruct (tidyTags decode clock _ tags _) as [[ev w'] r].
  cbn [log final outcome fst snd] in *.
  intros [Hin | [Hin | Hin]]; try discriminate.
  apply in_app_or in Hin. destruct Hin as [Hin | [Hin | []]]; [| discriminate].
  assert (Hd : In (EvCall (OpDelete key)) (deletes ev)).
  { unfold deletes. apply List.filter_In. split; [exact Hin | reflexivity]. }
  apply list_elem_of_In in Hd.
  apply (elem_of_sublist _ _ _ Hd) in Hdel.
  apply list_elem_of_In, in_map_iff in Hdel.
  destruct Hdel as (tag & Heq & Htag).
  exists tag. split.
  - rewrite Hpre. apply in_or_app. left. exact Htag.
  - unfold ev_delete in Heq. congruence.
Qed.

Lemma slash_free_keys_differ (tag tag' : string) :
  slash_tag tag = false -> deleteKey tag <> fetchKey tag'.
Proof.
  intros Hs Heq. unfold deleteKey, fetchKey in Heq. cbv [String.append] in Heq.
  repeat (injection Heq as Heq). subst tag. vm_compute in Hs. discriminate.
Qed.

(** X10.  On the in-memory storage a run only ever removes: every key has
    after the run the value it had before, or has none and the run issued a
    delete for it; no value is written or replaced, and a key the run issued
    no delete for is untouched. *)
Theorem run_only_removes (safety_buffer : Z) (w : World Inmem) :
  let run := tidyBlacklistRoleTag decode clock safety_buffer w in
  data (storage (final run)) ⊆ data (storage w)
  /\ (forall key : string,
        data (storage (final run)) !! key = data (storage w) !! key
        \/ (data (storage (final run)) !! key = None
            /\ In (EvCall (OpDelete key)) (log run)))
  /\ (forall key : string,
        ~ In (EvCall (OpDelete key)) (log run) ->
        data (storage (final run)) !! key = data (storage w) !! key).
Proof.
  intros run. subst run.
  destruct (shrinking_run safety_buffer w) as [_ Hk].
  split; [| split].
  - apply map_subseteq_spec. intros key v Hv.
    destruct (Hk key) as [Heq | [Hnone _]]; congruence.
  - exact Hk.
  - intros key Hnot. destruct (Hk key) as [Heq | [_ Hin]]; [exact Heq | contradiction].
Qed.

(** X11.  On the in-memory storage, when no listed tag begins with the
    separator, a run removes nothing from the namespace: the record under
    blacklist/roletag/ followed by any tag is after the run what it was
    before, whether the run deleted or not and whatever it returned. *)
Theorem namespace_untouched (safety_buffer : Z) (w : World Inmem) :
  Forall (fun tag => slash_tag tag = false)
    (inmem_keys "blacklist/roletag/" (data (storage w))) ->
  forall tag : string,
    data (storage (final (tidyBlacklistRoleTag decode clock safety_buffer w))) !! fetchKey tag
    = data (storage w) !! fetchKey tag.
Proof.
  intros Hfree tag.
  destruct (shrinking_run safety_buffer w) as [_ Hk].
  destruct (Hk (fetchKey tag)) as [Heq | [_ Hin]]; [exact Heq |].
  apply run_delete_inv in Hin. destruct Hin as (t & Ht & Hkey).
  rewrite List.Forall_forall in Hfree.
  exfalso. apply (slash_free_keys_differ t tag (Hfree t Ht)). congruence.
Qed.

End InmemSweep.

(** ** A whole run over well-formed entries *)

Section InmemWhole.
Variable decode : list byte -> error + roleTagBlacklistEntry.
Variable clock : nat -> Time.

Lemma deletes_iterations (due : string -> bool) (tags : list string) :
  deletes (flat_map (iteration due) tags) = map ev_delete (List.filter due tags).
Proof.
  induction tags as [| tag rest IH]; [reflexivity |].
  cbn [flat_map List.filter]. unfold deletes in *. rewrite List.filter_app, IH.
  unfold iteration. destruct (due tag); reflexivity.
Qed.

Lemma gets_iterations (due : string -> bool) (tags : list string) :
  gets (flat_map (iteration due) tags) = map ev_get tags.
Proof.
  induction tags as [| tag rest IH]; [reflexivity |].
  cbn [flat_map]. unfold gets in *. rewrite List.filter_app, IH.
  unfold iteration. destruct (due tag); reflexivity.
Qed.

(** The iteration on a well-formed entry of a storage without faults. *)
Lemma tidyTag_inmem (B : Duration) (due : string -> bool) (tag : string)
    (w : World Inmem) :
  (forall op, fault (storage w) op = None) ->
  well_formed_at decode clock B due (data (storage w)) tag ->
  tidyTag decode clock B tag w =
    (iteration due tag,
     tick (set_storage
             (if due tag
              then mkInmem (delete (deleteKey tag) (data (storage w))) (fault (storage w))
              else storage w) w),
     inr tt).
Proof.
  intros Hnf (v & entry & Hv & Hne & Hdec & Hdue).
  assert (HGet : Get (storage w) (fetchKey tag)
                 = (storage w, inr (Some (mkStorageEntry (fetchKey tag) v)))).
  { cbn. now rewrite Hnf, Hv. }
  rewrite (tidyTag_decoded decode clock B tag w _ _ entry HGet Hne Hdec).
  unfold After, Add, iteration. rewrite Hdue.
  destruct (due tag); [| reflexivity].
  unfold wrap, s_Delete. cbn. rewrite Hnf. reflexivity.
Qed.

Lemma tidyTags_inmem (B : Duration) (due : string -> bool) (tags : list string) :
  forall w : World Inmem,
    (forall op, fault (storage w) op = None) ->
    Forall (fun tag => slash_tag tag = false) tags ->
    Forall (well_formed_at decode clock B due (data (storage w))) tags ->
    log (tidyTags decode clock B tags w) = flat_map (iteration due) tags
    /\ outcome (tidyTags decode clock B tags w) = inr tt.
Proof.
  induction tags as [| tag rest IH]; intros w Hnf Hfree Hwf.
  - split; reflexivity.
  - inversion Hfree as [| ? ? Hf1 Hf2]; subst.
    inversion Hwf as [| ? ? Hw1 Hw2]; subst.
    cbn [tidyTags flat_map]. unfold bind.
    rewrite (tidyTag_inmem B due tag w Hnf Hw1).
    set (w1 := tick (set_storage _ w)).
    destruct (IH w1) as [Hlog Hout].
    + intros op. subst w1. cbn. destruct (due tag); cbn; apply Hnf.
    + exact Hf2.
    + apply (List.Forall_impl _ (P := well_formed_at decode clock B due (data (storage w))));
        [| exact Hw2].
      intros t (v & entry & Hv & Hrest). exists v, entry. split; [| exact Hrest].
      subst w1. cbn. destruct (due tag); cbn; [| exact Hv].
      rewrite lookup_delete_ne; [exact Hv |].
      now apply slash_free_keys_differ.
    + destruct (tidyTags decode clock B rest w1) as [[ev2 w2] r].
      cbn [log outcome fst snd] in *. subst. split; reflexivity.
Qed.

(** The log and the result of a run over well-formed entries. *)
Lemma run_inmem_well_formed (safety_buffer : Z) (due : string -> bool)
    (w : World Inmem) :
  tidyBlacklistCASGuard w = 0 ->
  (forall op, fault (storage w) op = None) ->
  Forall (fun tag => slash_tag tag = false)
    (inmem_keys "blacklist/roletag/" (data (storage w))) ->
  Forall (well_formed_at decode clock (bufferDuration safety_buffer) due (data (storage w)))
    (inmem_keys "blacklist/roletag/" (data (storage w))) ->
  outcome (tidyBlacklistRoleTag decode clock safety_buffer w) = None
  /\ log (tidyBlacklistRoleTag decode clock safety_buffer w)
     = EvAcquire :: EvCall (OpList "blacklist/roletag/")
         :: flat_map (iteration due) (inmem_keys "blacklist/roletag/" (data (storage w)))
         ++ [EvRelease].
Proof.
  intros Hg Hnf Hfree Hwf.
  unfold tidyBlacklistRoleTag, tidyGuarded, bind, s_List.
  rewrite Hg. cbn [Z.eqb storage set_guard List Inmem_Storage]. rewrite Hnf.
  destruct (tidyTags_inmem (bufferDuration safety_buffer) due
              (inmem_keys "blacklist/roletag/" (data (storage w)))
              (set_storage (storage w) (mkWorld 1 (storage w) (readings w))))
    as [Hlog Hout]; try assumption.
  destruct (tidyTags decode clock _ _ _) as [[ev w'] r].
  cbn [log outcome fst snd] in *. subst. split; reflexivity.
Qed.

(** X12.  A whole run on the in-memory storage when nothing goes wrong: no
    call fails, no listed tag begins with the separator, every listed entry
    is stored, not empty and decodes, and no entry crosses its threshold
    while the run lasts ([due] says on which side each one is).  The run
    returns nil; it fetches every listed tag, in the order of the listing,
    and right after the fetch of a due entry it issues the delete for it and
    none for the others. *)
Theorem run_over_well_formed_entries (safety_buffer : Z) (due : string -> bool)
    (w : World Inmem) :
  tidyBlacklistCASGuard w = 0 ->
  (forall op, fault (storage w) op = None) ->
  Forall (fun tag => slash_tag tag = false)
    (inmem_keys "blacklist/roletag/" (data (storage w))) ->
  Forall (well_formed_at decode clock (bufferDuration safety_buffer) due (data (storage w)))
    (inmem_keys "blacklist/roletag/" (data (storage w))) ->
  let tags := inmem_keys "blacklist/roletag/" (data (storage w)) in
  let run := tidyBlacklistRoleTag decode clock safety_buffer w in
  outcome run = None
  /\ log run = EvAcquire :: EvCall (OpList "blacklist/roletag/")
                 :: flat_map (iteration due) tags ++ [EvRelease]
  /\ gets (log run) = map ev_get tags
  /\ deletes (log run) = map ev_delete (List.filter due tags).
Proof.
  intros Hg Hnf Hfree Hwf tags run. subst run tags.
  destruct (run_inmem_well_formed safety_buffer due w Hg Hnf Hfree Hwf) as [Hout Hlog].
  split; [exact Hout |]. split; [exact Hlog |].
  rewrite Hlog. unfold gets, deletes. cbn. rewrite !List.filter_app. cbn.
  rewrite !app_nil_r. split; [apply gets_iterations | apply deletes_iterations].
Qed.

(** X13.  The update callback of the path on a request that gives no
    safety_buffer: the sweep runs with the default of the field, 72 hours.
    The response is nil; on a storage as in X12 the error is nil too and the
    deletes issued are those of the entries whose expiration time plus 72
    hours is before the clock. *)
Theorem update_defaults_to_72_hours (raw : gmap string Z) (due : string -> bool)
    (w : World Inmem) :
  raw !! "safety_buffer" = None ->
  tidyBlacklistCASGuard w = 0 ->
  (forall op, fault (storage w) op = None) ->
  Forall (fun tag => slash_tag tag = false)
    (inmem_keys "blacklist/roletag/" (data (storage w))) ->
  Forall (well_formed_at decode clock (72 * 3600 * Second) due (data (storage w)))
    (inmem_keys "blacklist/roletag/" (data (storage w))) ->
  let tags := inmem_keys "blacklist/roletag/" (data (storage w)) in
  let run := pathTidyRoletagBlacklistUpdate decode clock (request_data raw) w in
  outcome run = (None, None)
  /\ gets (log run) = map ev_get tags
  /\ deletes (log run) = map ev_delete (List.filter due tags).
Proof.
  intros Hraw Hg Hnf Hfree Hwf tags run.
  assert (HB : bufferDuration default_safety_buffer = 72 * 3600 * Second)
    by (vm_compute; reflexivity).
  rewrite <- HB in Hwf.
  assert (Hsb : FieldData_Get (request_data raw) "safety_buffer" = default_safety_buffer).
  { unfold FieldData_Get, request_data. cbn [Raw Schema]. rewrite Hraw. reflexivity. }
  subst run tags. unfold pathTidyRoletagBlacklistUpdate. rewrite Hsb.
  destruct (run_inmem_well_formed default_safety_buffer due w Hg Hnf Hfree Hwf)
    as [Hout Hlog].
  destruct (tidyBlacklistRoleTag decode clock default_safety_buffer w) as [[ev w'] r].
  cbn [log outcome fst snd] in *. subst r ev.
  split; [reflexivity |].
  unfold gets, deletes. cbn. rewrite !List.filter_app. cbn.
  rewrite !app_nil_r. split; [apply gets_iterations | apply deletes_iterations].
Qed.

End InmemWhole.

(** ** The properties above on concrete runs *)

(** The listing fails on a storage that holds an entry. *)
Lemma list_failure_returned_as_is_witness :
  tidyBlacklistRoleTag decodeDecimal (frozenClock 1000) 0 (idle store_list_fails) =
    ([EvAcquire; EvCall (OpList "blacklist/roletag/"); EvRelease],
     mkWorld 0 store_list_fails 0, Some io_error).
Proof.
  apply (list_failure_returned_as_is decodeDecimal (frozenClock 1000) 0
           (idle store_list_fails) store_list_fails io_error).
  - reflexivity.
  - vm_compute. reflexivity.
Defined.

(** The fetch of b fails after a was fetched and deleted. *)
Lemma fetch_failure_names_the_tag_witness :
  let run := tidyBlacklistRoleTag decodeDecimal (frozenClock 1000) 0 (idle store_get_fails) in
  outcome run = Some (ErrFetch "b" io_error)
  /\ log run = EvAcquire :: EvCall (OpList "blacklist/roletag/")
                 :: [ev_get "a"; ev_delete "a"] ++ [ev_get "b"; EvRelease]
  /\ final run
     = mkWorld 0 (mkInmem (delete "blacklist/roletaga" (data store_abort))
                    (fault store_get_fails)) 1.
Proof.
  apply (fetch_failure_names_the_tag decodeDecimal (frozenClock 1000) 0
           (idle store_get_fails) store_get_fails
           (mkInmem (delete "blacklist/roletaga" (data store_abort)) (fault store_get_fails))
           ["a"] [] "b" [ev_get "a"; ev_delete "a"]
           (mkWorld 1 (mkInmem (delete "blacklist/roletaga" (data store_abort))
                         (fault store_get_fails)) 1)
           io_error).
  - reflexivity.
  - vm_compute. reflexivity.
  - vm_compute. reflexivity.
  - vm_compute. reflexivity.
Defined.

(** The tag / is due and its delete removes the record of the empty tag,
    which is listed next and found missing. *)
Lemma missing_entry_aborts_witness :
  let run := tidyBlacklistRoleTag decodeDecimal (frozenClock 1000) 0 (idle store_slash_empty) in
  outcome run = Some (ErrNilEntry "")
  /\ log run = EvAcquire :: EvCall (OpList "blacklist/roletag/")
                 :: [ev_get "/"; ev_delete "/"] ++ [ev_get ""; EvRelease]
  /\ final run
     = mkWorld 0 (mkInmem (delete "blacklist/roletag/" (data store_slash_empty)) no_fault) 1.
Proof.
  apply (missing_entry_aborts decodeDecimal (frozenClock 1000) 0
           (idle store_slash_empty) store_slash_empty
           (mkInmem (delete "blacklist/roletag/" (data store_slash_empty)) no_fault)
           ["/"] [] "" [ev_get "/"; ev_delete "/"]
           (mkWorld 1 (mkInmem (delete "blacklist/roletag/" (data store_slash_empty))
                         no_fault) 1)).
  - reflexivity.
  - vm_compute. reflexivity.
  - vm_compute. reflexivity.
  - vm_compute. reflexivity.
Defined.

(** The delete for the one due entry fails. *)
Lemma delete_failure_names_the_tag_witness :
  let run := tidyBlacklistRoleTag decodeDecimal (frozenClock 1000) 0
               (idle store_delete_fails) in
  outcome run = Some (ErrDelete "a" io_error)
  /\ log run = EvAcquire :: EvCall (OpList "blacklist/roletag/")
                 :: [] ++ [ev_get "a"; ev_delete "a"; EvRelease]
  /\ final run = mkWorld 0 store_delete_fails 1.
Proof.
  apply (delete_failure_names_the_tag decodeDecimal (frozenClock 1000) 0
           (idle store_delete_fails) store_delete_fails store_delete_fails
           store_delete_fails [] [] "a" []
           (mkWorld 1 store_delete_fails 0)
           (mkStorageEntry "blacklist/roletag/a" (payload "100"))
           (mkRoleTagBlacklistEntry 100) io_error).
  - reflexivity.
  - vm_compute. reflexivity.
  - vm_compute. reflexivity.
  - vm_compute. reflexivity.
  - vm_compute. discriminate.
  - vm_compute. reflexivity.
  - vm_compute. reflexivity.
  - vm_compute. reflexivity.
Defined.

(** The one entry does not decode. *)
Lemma decode_failure_returned_as_is_witness :
  let run := tidyBlacklistRoleTag decodeDecimal (frozenClock 1000) 0
               (idle (store_garbled "a")) in
  outcome run = Some (ErrOther "invalid character in payload")
  /\ log run = EvAcquire :: EvCall (OpList "blacklist/roletag/")
                 :: [] ++ [ev_get "a"; EvRelease]
  /\ final run = mkWorld 0 (store_garbled "a") 0.
Proof.
  apply (decode_failure_returned_as_is decodeDecimal (frozenClock 1000) 0
           (idle (store_garbled "a")) (store_garbled "a") (store_garbled "a")
           [] [] "a" [] (mkWorld 1 (store_garbled "a") 0)
           (mkStorageEntry "blacklist/roletag/a" (payload "x"))
           (ErrOther "invalid character in payload")).
  - reflexivity.
  - vm_compute. reflexivity.
  - vm_compute. reflexivity.
  - vm_compute. reflexivity.
  - vm_compute. discriminate.
  - vm_compute. reflexivity.
Defined.

(** The run that stops at the empty entry b fetched a and b and deleted for
    a only. *)
Lemma calls_follow_the_listing_witness :
  let run := tidyBlacklistRoleTag decodeDecimal (frozenClock 1000) 0 (idle store_abort) in
  exists fetched : list string,
    fetched `prefix_of` ["a"; "b"]
    /\ gets (log run) = map ev_get fetched
    /\ deletes (log run) `sublist_of` map ev_delete fetched
    /\ (outcome run = None ->
        fetched = ["a"; "b"] /\ readings (final run) = (0 + length ["a"; "b"])%nat).
Proof.
  apply (calls_follow_the_listing decodeDecimal (frozenClock 1000) 0
           (idle store_abort) store_abort ["a"; "b"]).
  - reflexivity.
  - vm_compute. reflexivity.
Defined.

Lemma store_example_listing :
  inmem_keys "blacklist/roletag/" (data store_example) = ["A"; "B"].
Proof. vm_compute. reflexivity. Defined.

Lemma store_example_slash_free :
  Forall (fun tag => slash_tag tag = false)
    (inmem_keys "blacklist/roletag/" (data (storage (idle store_example)))).
Proof.
  change (storage (idle store_example)) with store_example.
  rewrite store_example_listing. repeat constructor.
Defined.

Lemma store_example_well_formed :
  Forall (well_formed_at decodeDecimal (frozenClock example_instant)
            (72 * 3600 * Second) due_A (data (storage (idle store_example))))
    (inmem_keys "blacklist/roletag/" (data (storage (idle store_example)))).
Proof.
  change (storage (idle store_example)) with store_example.
  rewrite store_example_listing.
  constructor; [| constructor; [| constructor]].
  - exists (payload "136000000000000"), (mkRoleTagBlacklistEntry 136000000000000).
    split; [vm_compute; reflexivity |]. split; [vm_compute; discriminate |].
    split; [vm_compute; reflexivity |]. intros n. vm_compute. reflexivity.
  - exists (payload "996400000000000"), (mkRoleTagBlacklistEntry 996400000000000).
    split; [vm_compute; reflexivity |]. split; [vm_compute; discriminate |].
    split; [vm_compute; reflexivity |]. intros n. vm_compute. reflexivity.
Defined.

(** The expired entry of [store_one] survives the run that deletes for
    it. *)
Lemma namespace_untouched_witness :
  data (storage (final (tidyBlacklistRoleTag decodeDecimal (frozenClock 1000) 0
                          (idle store_one)))) !! fetchKey "a"
  = data (storage (idle store_one)) !! fetchKey "a".
Proof.
  apply (namespace_untouched decodeDecimal (frozenClock 1000) 0 (idle store_one)).
  assert (E : inmem_keys "blacklist/roletag/" (data (storage (idle store_one))) = ["a"])
    by (vm_compute; reflexivity).
  rewrite E. repeat constructor.
Defined.

(** The entries A and B with a buffer of 72 hours at the example instant:
    the delete is issued for A only. *)
Lemma run_over_well_formed_entries_witness :
  let tags := inmem_keys "blacklist/roletag/" (data (storage (idle store_example))) in
  let run := tidyBlacklistRoleTag decodeDecimal (frozenClock example_instant)
               default_safety_buffer (idle store_example) in
  outcome run = None
  /\ log run = EvAcquire :: EvCall (OpList "blacklist/roletag/")
                 :: flat_map (iteration due_A) tags ++ [EvRelease]
  /\ gets (log run) = map ev_get tags
  /\ deletes (log run) = map ev_delete (List.filter due_A tags).
Proof.
  apply (run_over_well_formed_entries decodeDecimal (frozenClock example_instant)
           default_safety_buffer due_A (idle store_example)).
  - reflexivity.
  - intros op. reflexivity.
  - exact store_example_slash_free.
  - exact store_example_well_formed.
Defined.

(** The same through the update callback, on a request without fields. *)
Lemma update_defaults_to_72_hours_witness :
  let tags := inmem_keys "blacklist/roletag/" (data (storage (idle store_example))) in
  let run := pathTidyRoletagBlacklistUpdate decodeDecimal (frozenClock example_instant)
               (request_data ∅) (idle store_example) in
  outcome run = (None, None)
  /\ gets (log run) = map ev_get tags
  /\ deletes (log run) = map ev_delete (List.filter due_A tags).
Proof.
  apply (update_defaults_to_72_hours decodeDecimal (frozenClock example_instant)
           ∅ due_A (idle store_example)).
  - reflexivity.
  - reflexivity.
  - intros op. reflexivity.
  - exact store_example_slash_free.
  - exact store_example_well_formed.
Defined.

(** ** The run at one entry of the listing *)

Section SweeperAtEntry.
Context {S : Type} `{Storage S}.
Variable decode : list byte -> error + roleTagBlacklistEntry.
Variable clock : nat -> Time.

(** What follows an iteration in the log is the fetch of the next tag or
    the release, never a delete. *)
Lemma after_iteration_no_delete B post (w : World S) key rest :
  log (tidyTags decode clock B post w) ++ [EvRelease] <> EvCall (OpDelete key) :: rest.
Proof.
  destruct post as [| tag post]; [discriminate |].
  cbn [tidyTags]. unfold bind.
  destruct (tidyTag_shape decode clock B tag w) as [Hlog _].
  destruct (tidyTag decode clock B tag w) as [[ev1 w1] [e | []]];
    cbn [log fst snd] in *.
  - destruct Hlog as [-> | ->]; discriminate.
  - destruct (tidyTags decode clock B post w1) as [[ev2 w2] r]. cbn [log fst].
    destruct Hlog as [-> | ->]; discriminate.
Qed.

(** A run whose loop gets through [pre] and through [k]: it goes on with
    the tags after [k]. *)
Lemma continue_at (safety_buffer : Z) (w : World S) (s1 : S)
    (pre post : list string) (k : string)
    (evs evk : list Event) (w2 wk : World S) :
  tidyBlacklistCASGuard w = 0 ->
  List (storage w) "blacklist/roletag/" = (s1, inr (pre ++ k :: post)) ->
  tidyTags decode clock (bufferDuration safety_buffer) pre
    (set_storage s1 (set_guard 1 w)) = (evs, w2, inr tt) ->
  tidyTag decode clock (bufferDuration safety_buffer) k w2 = (evk, wk, inr tt) ->
  tidyBlacklistRoleTag decode clock safety_buffer w =
    resume decode clock (bufferDuration safety_buffer) post (evs ++ evk) wk.
Proof.
  intros Hg HList Hpre Hk.
  unfold tidyBlacklistRoleTag, tidyGuarded, resume. rewrite Hg. cbn [Z.eqb].
  assert (HL : s_List "blacklist/roletag/" (set_guard 1 w)
               = ([EvCall (OpList "blacklist/roletag/")],
                  set_storage s1 (set_guard 1 w), inr (pre ++ k :: post))).
  { unfold s_List. cbn [storage set_guard]. now rewrite HList. }
  rewrite (bind_ok _ _ _ _ _ _ HL), tidyTags_app.
  rewrite (bind_ok _ _ _ _ _ _ Hpre).
  cbn [tidyTags]. rewrite (bind_ok _ _ _ _ _ _ Hk).
  destruct (tidyTags decode clock _ post wk) as [[evp wp] rp].
  cbn [log final outcome fst snd]. cbn. rewrite <- !app_assoc. reflexivity.
Qed.

(** The whole run, seen from the entry [k] of its listing: the tags before
    [k] went through, [k] is fetched, is not empty and decodes; [s4] and [r]
    are what the delete of [k] gives on the storage the fetch left. *)
Lemma run_at_entry (safety_buffer : Z) (w : World S) (s1 s3 s4 : S)
    (pre post : list string) (k : string) (evs : list Event) (w2 : World S)
    (e : StorageEntry) (entry : roleTagBlacklistEntry) (r : option error) :
  tidyBlacklistCASGuard w = 0 ->
  List (storage w) "blacklist/roletag/" = (s1, inr (pre ++ k :: post)) ->
  tidyTags decode clock (bufferDuration safety_buffer) pre
    (set_storage s1 (set_guard 1 w)) = (evs, w2, inr tt) ->
  Get (storage w2) (fetchKey k) = (s3, inr (Some e)) ->
  Value e <> [] ->
  decode (Value e) = inr entry ->
  Delete s3 (deleteKey k) = (s4, r) ->
  tidyBlacklistRoleTag decode clock safety_buffer w =
    if ExpirationTime entry + bufferDuration safety_buffer <? clock (readings w2)
    then match r with
         | Some err =>
             (EvAcquire :: EvCall (OpList "blacklist/roletag/")
                :: evs ++ [ev_get k; ev_delete k; EvRelease],
              mkWorld 0 s4 (Datatypes.S (readings w2)), Some (ErrDelete k err))
         | None =>
             resume decode clock (bufferDuration safety_buffer) post
               (evs ++ [ev_get k; ev_delete k]) (tick (set_storage s4 w2))
         end
    else resume decode clock (bufferDuration safety_buffer) post
           (evs ++ [ev_get k]) (tick (set_storage s3 w2)).
Proof.
  intros Hg HList Hpre HGet Hne Hdec HDel.
  pose proof (tidyTag_decoded decode clock (bufferDuration safety_buffer) k w2 s3 e entry
                HGet Hne Hdec) as Hk.
  unfold After, Add in Hk.
  destruct (ExpirationTime entry + bufferDuration safety_buffer <? clock (readings w2)).
  - unfold wrap, s_Delete in Hk. cbn [storage tick set_storage] in Hk.
    rewrite HDel in Hk. destruct r as [err |]; cbn [log final outcome fst snd] in Hk.
    + rewrite (abort_at decode clock safety_buffer w s1 pre post k evs _ w2 _ _
                 Hg HList Hpre Hk).
      cbn. rewrite <- app_assoc. reflexivity.
    + exact (continue_at safety_buffer w s1 pre post k evs _ w2 _ Hg HList Hpre Hk).
  - exact (continue_at safety_buffer w s1 pre post k evs _ w2 _ Hg HList Hpre Hk).
Qed.

(** In the log of the run, the delete of [k] follows the fetch of [k] if and
    only if the reading of the clock is strictly after the expiration time
    plus the buffer. *)
Lemma run_at_entry_log (safety_buffer : Z) (w : World S) (s1 s3 s4 : S)
    (pre post : list string) (k : string) (evs : list Event) (w2 : World S)
    (e : StorageEntry) (entry : roleTagBlacklistEntry) (r : option error) :
  tidyBlacklistCASGuard w = 0 ->
  List (storage w) "blacklist/roletag/" = (s1, inr (pre ++ k :: post)) ->
  tidyTags decode clock (bufferDuration safety_buffer) pre
    (set_storage s1 (set_guard 1 w)) = (evs, w2, inr tt) ->
  Get (storage w2) (fetchKey k) = (s3, inr (Some e)) ->
  Value e <> [] ->
  decode (Value e) = inr entry ->
  Delete s3 (deleteKey k) = (s4, r) ->
  exists rest : list Event,
    log (tidyBlacklistRoleTag decode clock safety_buffer w)
    = EvAcquire :: EvCall (OpList "blacklist/roletag/") :: evs ++ ev_get k :: rest
    /\ (ExpirationTime entry + bufferDuration safety_buffer < clock (readings w2)
        <-> exists rest', rest = ev_delete k :: rest').
Proof.
  intros Hg HList Hpre HGet Hne Hdec HDel.
  rewrite (run_at_entry safety_buffer w s1 s3 s4 pre post k evs w2 e entry r
             Hg HList Hpre HGet Hne Hdec HDel).
  destruct (Z.ltb_spec (ExpirationTime entry + bufferDuration safety_buffer)
              (clock (readings w2))) as [Hlt | Hge].
  - destruct r as [err |].
    + exists [ev_delete k; EvRelease]. split; [reflexivity |].
      split; [intros _; eexists; reflexivity | intros _; exact Hlt].
    + unfold resume. destruct (tidyTags decode clock _ post _) as [[evp wp] rp].
      exists (ev_delete k :: evp ++ [EvRelease]). cbn [log fst]. split.
      * rewrite <- app_assoc. reflexivity.
      * split; [intros _; eexists; reflexivity | intros _; exact Hlt].
  - unfold resume.
    pose proof (after_iteration_no_delete (bufferDuration safety_buffer) post
                  (tick (set_storage s3 w2)) (deleteKey k)) as Hno.
    destruct (tidyTags decode clock _ post _) as [[evp wp] rp].
    exists (evp ++ [EvRelease]). cbn [log fst] in *. split.
    + rewrite <- app_assoc. reflexivity.
    + split; [lia |]. intros [rest' Hrest]. exfalso. exact (Hno rest' Hrest).
Qed.

(** ** The threshold, on the whole run *)

(** X14.  The expiration test on the whole run.  The tags before [tag] went
    through; [tag] is fetched, is not empty and decodes to the expiration
    time T; the buffer is that of the invocation.  The run calls Delete for
    [tag], right after its fetch, if and only if the reading of the clock
    taken for [tag] is strictly after T plus the buffer.  When it is, the
    run goes on with the storage that call left, or stops with its error;
    when the reading is T plus the buffer or earlier, no delete is called
    for [tag] and the run goes on with the storage the fetch left. *)
Theorem delete_call_iff_strictly_after (safety_buffer : Z) (w : World S) (s1 s3 s4 : S)
    (pre post : list string) (tag : string) (evs : list Event) (w2 : World S)
    (e : StorageEntry) (entry : roleTagBlacklistEntry) (r : option error) :
  tidyBlacklistCASGuard w = 0 ->
  List (storage w) "blacklist/roletag/" = (s1, inr (pre ++ tag :: post)) ->
  tidyTags decode clock (bufferDuration safety_buffer) pre
    (set_storage s1 (set_guard 1 w)) = (evs, w2, inr tt) ->
  Get (storage w2) (fetchKey tag) = (s3, inr (Some e)) ->
  Value e <> [] ->
  decode (Value e) = inr entry ->
  Delete s3 (deleteKey tag) = (s4, r) ->
  let run := tidyBlacklistRoleTag decode clock safety_buffer w in
  let now := clock (readings w2) in
  let T := ExpirationTime entry in
  let B := bufferDuration safety_buffer in
  (exists rest : list Event,
      log run = EvAcquire :: EvCall (OpList "blacklist/roletag/")
                  :: evs ++ ev_get tag :: rest
      /\ (now > T + B <-> exists rest', rest = ev_delete tag :: rest'))
  /\ (now > T + B ->
      run = match r with
            | Some err =>
                (EvAcquire :: EvCall (OpList "blacklist/roletag/")
                   :: evs ++ [ev_get tag; ev_delete tag; EvRelease],
                 mkWorld 0 s4 (Datatypes.S (readings w2)), Some (ErrDelete tag err))
            | None =>
                resume decode clock (bufferDuration safety_buffer) post
                  (evs ++ [ev_get tag; ev_delete tag]) (tick (set_storage s4 w2))
            end)
  /\ (now <= T + B ->
      run = resume decode clock (bufferDuration safety_buffer) post
              (evs ++ [ev_get tag]) (tick (set_storage s3 w2))).
Proof.
  intros Hg HList Hpre HGet Hne Hdec HDel run now T B. subst run now T B.
  pose proof (run_at_entry_log safety_buffer w s1 s3 s4 pre post tag evs w2 e entry r
                Hg HList Hpre HGet Hne Hdec HDel) as (rest & Hlog & Hiff).
  pose proof (run_at_entry safety_buffer w s1 s3 s4 pre post tag evs w2 e entry r
                Hg HList Hpre HGet Hne Hdec HDel) as Hrun.
  split; [| split].
  - exists rest. split; [exact Hlog |]. rewrite <- Hiff. lia.
  - intros Hdue. rewrite Hrun.
    destruct (Z.ltb_spec (ExpirationTime entry + bufferDuration safety_buffer)
                (clock (readings w2))); [reflexivity | lia].
  - intros Hkeep. rewrite Hrun.
    destruct (Z.ltb_spec (ExpirationTime entry + bufferDuration safety_buffer)
                (clock (readings w2))); [lia | reflexivity].
Qed.

(** C10, as the code has it.  The buffer is not checked for its sign.  A
    run with a buffer of -k seconds, k at most 9223372036 so that k seconds
    fit in the 64-bit duration, goes through the guard, the listing and the
    loop as any other, with a duration of -k seconds: at the entry [tag] of
    its listing it calls Delete if and only if the clock is strictly after
    the expiration time minus k seconds, and goes on from there.  An entry
    read in the k seconds before its expiration time has the delete called
    for it. *)
Theorem negative_buffer_threshold (k : Z) (w : World S) (s1 s3 s4 : S)
    (pre post : list string) (tag : string) (evs : list Event) (w2 : World S)
    (e : StorageEntry) (entry : roleTagBlacklistEntry) (r : option error) :
  0 < k <= 9223372036 ->
  tidyBlacklistCASGuard w = 0 ->
  List (storage w) "blacklist/roletag/" = (s1, inr (pre ++ tag :: post)) ->
  tidyTags decode clock (bufferDuration (- k)) pre
    (set_storage s1 (set_guard 1 w)) = (evs, w2, inr tt) ->
  Get (storage w2) (fetchKey tag) = (s3, inr (Some e)) ->
  Value e <> [] ->
  decode (Value e) = inr entry ->
  Delete s3 (deleteKey tag) = (s4, r) ->
  let run := tidyBlacklistRoleTag decode clock (- k) w in
  let now := clock (readings w2) in
  let T := ExpirationTime entry in
  bufferDuration (- k) = - (k * Second)
  /\
  (exists rest : list Event,
      log run = EvAcquire :: EvCall (OpList "blacklist/roletag/")
                  :: evs ++ ev_get tag :: rest
      /\ (now > T - k * Second <-> exists rest', rest = ev_delete tag :: rest'))
  /\ (now > T - k * Second ->
      run = match r with
            | Some err =>
                (EvAcquire :: EvCall (OpList "blacklist/roletag/")
                   :: evs ++ [ev_get tag; ev_delete tag; EvRelease],
                 mkWorld 0 s4 (Datatypes.S (readings w2)), Some (ErrDelete tag err))
            | None =>
                resume decode clock (bufferDuration (- k)) post
                  (evs ++ [ev_get tag; ev_delete tag]) (tick (set_storage s4 w2))
            end)
  /\ (now <= T - k * Second ->
      run = resume decode clock (bufferDuration (- k)) post
              (evs ++ [ev_get tag]) (tick (set_storage s3 w2)))
  /\ (T - k * Second < now <= T ->
      exists rest', log run = EvAcquire :: EvCall (OpList "blacklist/roletag/")
                               :: evs ++ ev_get tag :: ev_delete tag :: rest').
Proof.
  intros Hk Hg HList Hpre HGet Hne Hdec HDel run now T. subst run now T.
  assert (HB : bufferDuration (- k) = - (k * Second)).
  { rewrite bufferDuration_exact by lia. lia. }
  pose proof (run_at_entry_log (- k) w s1 s3 s4 pre post tag evs w2 e entry r
                Hg HList Hpre HGet Hne Hdec HDel) as (rest & Hlog & Hiff).
  pose proof (run_at_entry (- k) w s1 s3 s4 pre post tag evs w2 e entry r
                Hg HList Hpre HGet Hne Hdec HDel) as Hrun.
  rewrite HB in Hiff.
  split; [exact HB |]. split; [| split; [| split]].
  - exists rest. split; [exact Hlog |]. rewrite <- Hiff. lia.
  - intros Hdue. rewrite Hrun, HB.
    destruct (Z.ltb_spec (ExpirationTime entry + - (k * Second))
                (clock (readings w2))); [reflexivity | lia].
  - intros Hkeep. rewrite Hrun, HB.
    destruct (Z.ltb_spec (ExpirationTime entry + - (k * Second))
                (clock (readings w2))); [lia | reflexivity].
  - intros Hwin. destruct Hiff as [Hiff _].
    destruct Hiff as [rest' ->]; [lia |]. exists rest'. exact Hlog.
Qed.

(** X8.  A buffer between 0 and 9223372036 seconds is taken as it is: the
    duration of the run is that many seconds, and at the entry [tag] of its
    listing the run calls Delete if and only if the clock is strictly after
    the expiration time plus that many seconds.  Within that range a longer
    buffer gives a longer duration, and the default of the field, 259200,
    gives 72 hours. *)
Theorem buffer_in_range_is_exact (safety_buffer : Z) (w : World S) (s1 s3 s4 : S)
    (pre post : list string) (tag : string) (evs : list Event) (w2 : World S)
    (e : StorageEntry) (entry : roleTagBlacklistEntry) (r : option error) :
  0 <= safety_buffer <= 9223372036 ->
  tidyBlacklistCASGuard w = 0 ->
  List (storage w) "blacklist/roletag/" = (s1, inr (pre ++ tag :: post)) ->
  tidyTags decode clock (bufferDuration safety_buffer) pre
    (set_storage s1 (set_guard 1 w)) = (evs, w2, inr tt) ->
  Get (storage w2) (fetchKey tag) = (s3, inr (Some e)) ->
  Value e <> [] ->
  decode (Value e) = inr entry ->
  Delete s3 (deleteKey tag) = (s4, r) ->
  let run := tidyBlacklistRoleTag decode clock safety_buffer w in
  let now := clock (readings w2) in
  let T := ExpirationTime entry in
  bufferDuration safety_buffer = safety_buffer * Second
  /\
  (exists rest : list Event,
      log run = EvAcquire :: EvCall (OpList "blacklist/roletag/")
                  :: evs ++ ev_get tag :: rest
      /\ (now > T + safety_buffer * Second <-> exists rest', rest = ev_delete tag :: rest'))
  /\ (now > T + safety_buffer * Second ->
      run = match r with
            | Some err =>
                (EvAcquire :: EvCall (OpList "blacklist/roletag/")
                   :: evs ++ [ev_get tag; ev_delete tag; EvRelease],
                 mkWorld 0 s4 (Datatypes.S (readings w2)), Some (ErrDelete tag err))
            | None =>
                resume decode clock (bufferDuration safety_buffer) post
                  (evs ++ [ev_get tag; ev_delete tag]) (tick (set_storage s4 w2))
            end)
  /\ (now <= T + safety_buffer * Second ->
      run = resume decode clock (bufferDuration safety_buffer) post
              (evs ++ [ev_get tag]) (tick (set_storage s3 w2)))
  /\ (forall longer : Z, safety_buffer <= longer <= 9223372036 ->
      bufferDuration safety_buffer <= bufferDuration longer)
  /\ bufferDuration default_safety_buffer = 72 * 3600 * Second.
Proof.
  intros Hsb Hg HList Hpre HGet Hne Hdec HDel run now T. subst run now T.
  assert (HB : bufferDuration safety_buffer = safety_buffer * Second).
  { apply bufferDuration_exact. lia. }
  pose proof (run_at_entry_log safety_buffer w s1 s3 s4 pre post tag evs w2 e entry r
                Hg HList Hpre HGet Hne Hdec HDel) as (rest & Hlog & Hiff).
  pose proof (run_at_entry safety_buffer w s1 s3 s4 pre post tag evs w2 e entry r
                Hg HList Hpre HGet Hne Hdec HDel) as Hrun.
  rewrite HB in Hiff.
  split; [exact HB |]. split; [| split; [| split; [| split]]].
  - exists rest. split; [exact Hlog |]. rewrite <- Hiff. lia.
  - intros Hdue. rewrite Hrun, HB.
    destruct (Z.ltb_spec (ExpirationTime entry + safety_buffer * Second)
                (clock (readings w2))); [reflexivity | lia].
  - intros Hkeep. rewrite Hrun, HB.
    destruct (Z.ltb_spec (ExpirationTime entry + safety_buffer * Second)
                (clock (readings w2))); [lia | reflexivity].
  - intros longer Hl. rewrite HB, bufferDuration_exact by lia. unfold Second. lia.
  - vm_compute. reflexivity.
Qed.

(** X9.  A buffer between 9223372037 and 18446744073 seconds does not fit
    in a duration: the product wraps, and the duration of the run is that
    many seconds minus 2^64 nanoseconds, a negative one.  At the entry
    [tag] of its listing the run calls Delete if and only if the clock is
    strictly after the expiration time plus that negative duration, so the
    delete is called for an entry that has not reached its expiration
    time. *)
Theorem buffer_beyond_range_wraps_negative (safety_buffer : Z) (w : World S) (s1 s3 s4 : S)
    (pre post : list string) (tag : string) (evs : list Event) (w2 : World S)
    (e : StorageEntry) (entry : roleTagBlacklistEntry) (r : option error) :
  9223372037 <= safety_buffer <= 18446744073 ->
  tidyBlacklistCASGuard w = 0 ->
  List (storage w) "blacklist/roletag/" = (s1, inr (pre ++ tag :: post)) ->
  tidyTags decode clock (bufferDuration safety_buffer) pre
    (set_storage s1 (set_guard 1 w)) = (evs, w2, inr tt) ->
  Get (storage w2) (fetchKey tag) = (s3, inr (Some e)) ->
  Value e <> [] ->
  decode (Value e) = inr entry ->
  Delete s3 (deleteKey tag) = (s4, r) ->
  let run := tidyBlacklistRoleTag decode clock safety_buffer w in
  let now := clock (readings w2) in
  let T := ExpirationTime entry in
  bufferDuration safety_buffer = safety_buffer * Second - 2 ^ 64
  /\ bufferDuration safety_buffer < 0
  /\
  (exists rest : list Event,
      log run = EvAcquire :: EvCall (OpList "blacklist/roletag/")
                  :: evs ++ ev_get tag :: rest
      /\ (now > T + (safety_buffer * Second - 2 ^ 64) <-> exists rest', rest = ev_delete tag :: rest'))
  /\ (now > T + (safety_buffer * Second - 2 ^ 64) ->
      run = match r with
            | Some err =>
                (EvAcquire :: EvCall (OpList "blacklist/roletag/")
                   :: evs ++ [ev_get tag; ev_delete tag; EvRelease],
                 mkWorld 0 s4 (Datatypes.S (readings w2)), Some (ErrDelete tag err))
            | None =>
                resume decode clock (bufferDuration safety_buffer) post
                  (evs ++ [ev_get tag; ev_delete tag]) (tick (set_storage s4 w2))
            end)
  /\ (now <= T + (safety_buffer * Second - 2 ^ 64) ->
      run = resume decode clock (bufferDuration safety_buffer) post
              (evs ++ [ev_get tag]) (tick (set_storage s3 w2)))
  /\ (T + (safety_buffer * Second - 2 ^ 64) < now <= T ->
      exists rest', log run = EvAcquire :: EvCall (OpList "blacklist/roletag/")
                               :: evs ++ ev_get tag :: ev_delete tag :: rest').
Proof.
  intros Hsb Hg HList Hpre HGet Hne Hdec HDel run now T. subst run now T.
  assert (HB : bufferDuration safety_buffer = safety_buffer * Second - 2 ^ 64).
  { apply bufferDuration_wrapped. lia. }
  pose proof (run_at_entry_log safety_buffer w s1 s3 s4 pre post tag evs w2 e entry r
                Hg HList Hpre HGet Hne Hdec HDel) as (rest & Hlog & Hiff).
  pose proof (run_at_entry safety_buffer w s1 s3 s4 pre post tag evs w2 e entry r
                Hg HList Hpre HGet Hne Hdec HDel) as Hrun.
  rewrite HB in Hiff.
  split; [exact HB |]. split; [| split; [| split; [| split]]].
  - rewrite HB. change (2 ^ 64) with 18446744073709551616. unfold Second. lia.
  - exists rest. split; [exact Hlog |]. rewrite <- Hiff. lia.
  - intros Hdue. rewrite Hrun, HB.
    destruct (Z.ltb_spec (ExpirationTime entry + (safety_buffer * Second - 2 ^ 64))
                (clock (readings w2))); [reflexivity | lia].
  - intros Hkeep. rewrite Hrun, HB.
    destruct (Z.ltb_spec (ExpirationTime entry + (safety_buffer * Second - 2 ^ 64))
                (clock (readings w2))); [lia | reflexivity].
  - intros Hwin. destruct Hiff as [Hiff _].
    destruct Hiff as [rest' ->]; [lia |]. exists rest'. exact Hlog.
Qed.

End SweeperAtEntry.

(** ** The threshold on concrete runs *)

(** Entry a of [store_abort], expiring at 100, read at 1000 without buffer:
    the delete is called, it removes the record it names, and the run goes
    on to b. *)
Lemma delete_call_iff_strictly_after_witness :
  let run := tidyBlacklistRoleTag decodeDecimal (frozenClock 1000) 0 (idle store_abort) in
  let now := frozenClock 1000 (readings (mkWorld 1 store_abort 0)) in
  let T := ExpirationTime (mkRoleTagBlacklistEntry 100) in
  let B := bufferDuration 0 in
  (exists rest : list Event,
      log run = EvAcquire :: EvCall (OpList "blacklist/roletag/")
                  :: [] ++ ev_get "a" :: rest
      /\ (now > T + B <-> exists rest', rest = ev_delete "a" :: rest'))
  /\ (now > T + B ->
      run = match (@None error) with
            | Some err =>
                (EvAcquire :: EvCall (OpList "blacklist/roletag/")
                   :: [] ++ [ev_get "a"; ev_delete "a"; EvRelease],
                 mkWorld 0 (mkInmem (delete "blacklist/roletaga" (data store_abort)) no_fault) (Datatypes.S (readings (mkWorld 1 store_abort 0))), Some (ErrDelete "a" err))
            | None =>
                resume decodeDecimal (frozenClock 1000) (bufferDuration 0) ["b"]
                  ([] ++ [ev_get "a"; ev_delete "a"]) (tick (set_storage (mkInmem (delete "blacklist/roletaga" (data store_abort)) no_fault) (mkWorld 1 store_abort 0)))
            end)
  /\ (now <= T + B ->
      run = resume decodeDecimal (frozenClock 1000) (bufferDuration 0) ["b"]
              ([] ++ [ev_get "a"]) (tick (set_storage store_abort (mkWorld 1 store_abort 0)))).
Proof.
  apply (delete_call_iff_strictly_after decodeDecimal (frozenClock 1000) 0
           (idle store_abort) store_abort store_abort (mkInmem (delete "blacklist/roletaga" (data store_abort)) no_fault)
           [] ["b"] "a" [] (mkWorld 1 store_abort 0)
           (mkStorageEntry "blacklist/roletag/a" (payload "100"))
           (mkRoleTagBlacklistEntry 100) None).
  - reflexivity.
  - vm_compute. reflexivity.
  - vm_compute. reflexivity.
  - vm_compute. reflexivity.
  - vm_compute. discriminate.
  - vm_compute. reflexivity.
  - vm_compute. reflexivity.
Defined.

(** A buffer of -5 seconds: for the entry a of [store_grace], expiring at 3
    seconds, the delete is called at the first nanosecond. *)
Lemma negative_buffer_threshold_witness :
  let run := tidyBlacklistRoleTag decodeDecimal (frozenClock 1) (- 5) (idle store_grace) in
  let now := frozenClock 1 (readings (mkWorld 1 store_grace 0)) in
  let T := ExpirationTime (mkRoleTagBlacklistEntry 3000000000) in
  bufferDuration (- 5) = - (5 * Second)
  /\
  (exists rest : list Event,
      log run = EvAcquire :: EvCall (OpList "blacklist/roletag/")
                  :: [] ++ ev_get "a" :: rest
      /\ (now > T - 5 * Second <-> exists rest', rest = ev_delete "a" :: rest'))
  /\ (now > T - 5 * Second ->
      run = match (@None error) with
            | Some err =>
                (EvAcquire :: EvCall (OpList "blacklist/roletag/")
                   :: [] ++ [ev_get "a"; ev_delete "a"; EvRelease],
                 mkWorld 0 (mkInmem (delete "blacklist/roletaga" (data store_grace)) no_fault) (Datatypes.S (readings (mkWorld 1 store_grace 0))), Some (ErrDelete "a" err))
            | None =>
                resume decodeDecimal (frozenClock 1) (bufferDuration (- 5)) []
                  ([] ++ [ev_get "a"; ev_delete "a"]) (tick (set_storage (mkInmem (delete "blacklist/roletaga" (data store_grace)) no_fault) (mkWorld 1 store_grace 0)))
            end)
  /\ (now <= T - 5 * Second ->
      run = resume decodeDecimal (frozenClock 1) (bufferDuration (- 5)) []
              ([] ++ [ev_get "a"]) (tick (set_storage store_grace (mkWorld 1 store_grace 0))))
  /\ (T - 5 * Second < now <= T ->
      exists rest', log run = EvAcquire :: EvCall (OpList "blacklist/roletag/")
                               :: [] ++ ev_get "a" :: ev_delete "a" :: rest').
Proof.
  apply (negative_buffer_threshold decodeDecimal (frozenClock 1) 5
           (idle store_grace) store_grace store_grace (mkInmem (delete "blacklist/roletaga" (data store_grace)) no_fault)
           [] [] "a" [] (mkWorld 1 store_grace 0)
           (mkStorageEntry "blacklist/roletag/a" (payload "3000000000"))
           (mkRoleTagBlacklistEntry 3000000000) None).
  - lia.
  - reflexivity.
  - vm_compute. reflexivity.
  - vm_compute. reflexivity.
  - vm_compute. reflexivity.
  - vm_compute. discriminate.
  - vm_compute. reflexivity.
  - vm_compute. reflexivity.
Defined.

(** The default buffer of 72 hours on the entry a of [store_abort], expiring
    at 100, read at the example instant: the delete is called. *)
Lemma buffer_in_range_is_exact_witness :
  let run := tidyBlacklistRoleTag decodeDecimal (frozenClock example_instant)
               default_safety_buffer (idle store_abort) in
  let now := frozenClock example_instant (readings (mkWorld 1 store_abort 0)) in
  let T := ExpirationTime (mkRoleTagBlacklistEntry 100) in
  bufferDuration default_safety_buffer = default_safety_buffer * Second
  /\
  (exists rest : list Event,
      log run = EvAcquire :: EvCall (OpList "blacklist/roletag/")
                  :: [] ++ ev_get "a" :: rest
      /\ (now > T + default_safety_buffer * Second <-> exists rest', rest = ev_delete "a" :: rest'))
  /\ (now > T + default_safety_buffer * Second ->
      run = match (@None error) with
            | Some err =>
                (EvAcquire :: EvCall (OpList "blacklist/roletag/")
                   :: [] ++ [ev_get "a"; ev_delete "a"; EvRelease],
                 mkWorld 0 (mkInmem (delete "blacklist/roletaga" (data store_abort)) no_fault) (Datatypes.S (readings (mkWorld 1 store_abort 0))), Some (ErrDelete "a" err))
            | None =>
                resume decodeDecimal (frozenClock example_instant) (bufferDuration default_safety_buffer) ["b"]
                  ([] ++ [ev_get "a"; ev_delete "a"]) (tick (set_storage (mkInmem (delete "blacklist/roletaga" (data store_abort)) no_fault) (mkWorld 1 store_abort 0)))
            end)
  /\ (now <= T + default_safety_buffer * Second ->
      run = resume decodeDecimal (frozenClock example_instant) (bufferDuration default_safety_buffer) ["b"]
              ([] ++ [ev_get "a"]) (tick (set_storage store_abort (mkWorld 1 store_abort 0))))
  /\ (forall longer : Z, default_safety_buffer <= longer <= 9223372036 ->
      bufferDuration default_safety_buffer <= bufferDuration longer)
  /\ bufferDuration default_safety_buffer = 72 * 3600 * Second.
Proof.
  apply (buffer_in_range_is_exact decodeDecimal (frozenClock example_instant)
           default_safety_buffer
           (idle store_abort) store_abort store_abort (mkInmem (delete "blacklist/roletaga" (data store_abort)) no_fault)
           [] ["b"] "a" [] (mkWorld 1 store_abort 0)
           (mkStorageEntry "blacklist/roletag/a" (payload "100"))
           (mkRoleTagBlacklistEntry 100) None).
  - vm_compute. split; discriminate.
  - reflexivity.
  - vm_compute. reflexivity.
  - vm_compute. reflexivity.
  - vm_compute. reflexivity.
  - vm_compute. discriminate.
  - vm_compute. reflexivity.
  - vm_compute. reflexivity.
Defined.

(** A buffer of 9223372037 seconds: for the entry a of [store_grace],
    expiring at 3 seconds, the delete is called at the first nanosecond. *)
Lemma buffer_beyond_range_wraps_negative_witness :
  let run := tidyBlacklistRoleTag decodeDecimal (frozenClock 1) 9223372037
               (idle store_grace) in
  let now := frozenClock 1 (readings (mkWorld 1 store_grace 0)) in
  let T := ExpirationTime (mkRoleTagBlacklistEntry 3000000000) in
  bufferDuration 9223372037 = 9223372037 * Second - 2 ^ 64
  /\ bufferDuration 9223372037 < 0
  /\
  (exists rest : list Event,
      log run = EvAcquire :: EvCall (OpList "blacklist/roletag/")
                  :: [] ++ ev_get "a" :: rest
      /\ (now > T + (9223372037 * Second - 2 ^ 64) <-> exists rest', rest = ev_delete "a" :: rest'))
  /\ (now > T + (9223372037 * Second - 2 ^ 64) ->
      run = match (@None error) with
            | Some err =>
                (EvAcquire :: EvCall (OpList "blacklist/roletag/")
                   :: [] ++ [ev_get "a"; ev_delete "a"; EvRelease],
                 mkWorld 0 (mkInmem (delete "blacklist/roletaga" (data store_grace)) no_fault) (Datatypes.S (readings (mkWorld 1 store_grace 0))), Some (ErrDelete "a" err))
            | None =>
                resume decodeDecimal (frozenClock 1) (bufferDuration 9223372037) []
                  ([] ++ [ev_get "a"; ev_delete "a"]) (tick (set_storage (mkInmem (delete "blacklist/roletaga" (data store_grace)) no_fault) (mkWorld 1 store_grace 0)))
            end)
  /\ (now <= T + (9223372037 * Second - 2 ^ 64) ->
      run = resume decodeDecimal (frozenClock 1) (bufferDuration 9223372037) []
              ([] ++ [ev_get "a"]) (tick (set_storage store_grace (mkWorld 1 store_grace 0))))
  /\ (T + (9223372037 * Second - 2 ^ 64) < now <= T ->
      exists rest', log run = EvAcquire :: EvCall (OpList "blacklist/roletag/")
                               :: [] ++ ev_get "a" :: ev_delete "a" :: rest').
Proof.
  apply (buffer_beyond_range_wraps_negative decodeDecimal (frozenClock 1) 9223372037
           (idle store_grace) store_grace store_grace (mkInmem (delete "blacklist/roletaga" (data store_grace)) no_fault)
           [] [] "a" [] (mkWorld 1 store_grace 0)
           (mkStorageEntry "blacklist/roletag/a" (payload "3000000000"))
           (mkRoleTagBlacklistEntry 3000000000) None).
  - lia.
  - reflexivity.
  - vm_compute. reflexivity.
  - vm_compute. reflexivity.
  - vm_compute. reflexivity.
  - vm_compute. discriminate.
  - vm_compute. reflexivity.
  - vm_compute. reflexivity.
Defined.

(** C3, on the code.  The test of the loop is the strict one: with a buffer
    of one second the entry a, expiring at 100, has no delete called at the
    instant 100 plus one second and has one called a nanosecond later.  But
    the delete names blacklist/roletaga: the run returns nil and the entry,
    read strictly after its expiration time plus the buffer, is still
    stored.  And an entry read exactly at its expiration time plus the
    buffer is removed: o expires at 1000 and is read at 1000, no delete is
    called in its iteration, and the delete called for /o names
    blacklist/roletag/o. *)
Theorem due_entry_stays_and_kept_entry_goes :
  (let at_threshold := tidyBlacklistRoleTag decodeDecimal (frozenClock 1000000100) 1
                         (idle store_one) in
   let after := tidyBlacklistRoleTag decodeDecimal (frozenClock 1000000101) 1
                  (idle store_one) in
   decodeDecimal (payload "100") = inr (mkRoleTagBlacklistEntry 100)
   /\ 100 + bufferDuration 1 = 1000000100
   /\ deletes (log at_threshold) = []
   /\ log after = [EvAcquire; EvCall (OpList "blacklist/roletag/");
                   EvCall (OpGet "blacklist/roletag/a");
                   EvCall (OpDelete "blacklist/roletaga"); EvRelease]
   /\ outcome after = None
   /\ data (storage (final after)) !! "blacklist/roletag/a" = Some (payload "100"))
  /\ (let run := tidyBlacklistRoleTag decodeDecimal (frozenClock 1000) 0
                   (idle store_boundary) in
      decodeDecimal (payload "1000") = inr (mkRoleTagBlacklistEntry 1000)
      /\ 1000 + bufferDuration 0 = 1000
      /\ data store_boundary !! "blacklist/roletag/o" = Some (payload "1000")
      /\ log run = [EvAcquire; EvCall (OpList "blacklist/roletag/");
                    EvCall (OpGet "blacklist/roletag/o");
                    EvCall (OpGet "blacklist/roletag//o");
                    EvCall (OpDelete "blacklist/roletag/o"); EvRelease]
      /\ outcome run = None
      /\ data (storage (final run)) !! "blacklist/roletag/o" = None).
Proof. vm_compute. repeat split. Qed.
